(** * The analysis stream consumer ([runAnalysis]) of the hedge-fund front end

    A shallow embedding of [runAnalysis], the function of the API client
    that posts an analysis request and consumes the server-sent event
    stream of the response, together with the parts of the JavaScript
    platform it relies on: UTF-16 strings, the streaming UTF-8
    [TextDecoder], [JSON.parse], property access and truthiness, numbers as
    doubles, and the abort semantics of [fetch].

    A run is a function of the caller's callbacks (which may throw, and may
    invoke the cancel handle) and of what the network does; its result is
    the sequence of observable events. *)

From Stdlib Require Import List Bool NArith ZArith Lia String Ascii.
From Stdlib.Strings Require Import Byte.
From Stdlib Require Import DecimalString.
From Stdlib Require Import Floats.
Import ListNotations.

Local Open Scope N_scope.

(** ** JavaScript strings *)

Module JsString.

(** A JavaScript string is a sequence of UTF-16 code units. *)
Definition code_unit := N.
Definition jsstring := list code_unit.

(** An ASCII literal of the source, as a JavaScript string. *)
Definition lit (s : string) : jsstring :=
  map N_of_ascii (list_ascii_of_string s).

Fixpoint eqb (a b : jsstring) : bool :=
  match a, b with
  | [], [] => true
  | x :: a', y :: b' => (x =? y) && eqb a' b'
  | _, _ => false
  end.

(** [s.split('\n')]: always at least one piece. *)
Fixpoint split_nl (s : jsstring) : list jsstring :=
  match s with
  | [] => [[]]
  | c :: r =>
      if c =? 10 then [] :: split_nl r
      else match split_nl r with
           | h :: t => (c :: h) :: t
           | [] => [[c]]
           end
  end.

(** [lines.pop()] leaves [removelast lines] in the array and returns its
    last element ([undefined] on an empty array, which [|| ''] turns into
    the empty string, as it does the empty string itself). *)
Definition pop_or_empty (lines : list jsstring) : jsstring := last lines [].

(** WhiteSpace and LineTerminator code points of ECMAScript, the set
    [String.prototype.trim] strips. *)
Definition is_js_space (c : code_unit) : bool :=
  (c =? 9) || (c =? 10) || (c =? 11) || (c =? 12) || (c =? 13) || (c =? 32)
  || (c =? 160) || (c =? 5760) || ((8192 <=? c) && (c <=? 8202))
  || (c =? 8232) || (c =? 8233) || (c =? 8239) || (c =? 8287)
  || (c =? 12288) || (c =? 65279).

Fixpoint trim_start (s : jsstring) : jsstring :=
  match s with
  | c :: r => if is_js_space c then trim_start r else s
  | [] => []
  end.

Definition trim (s : jsstring) : jsstring :=
  rev (trim_start (rev (trim_start s))).

Fixpoint startsWith (s prefix : jsstring) : bool :=
  match prefix, s with
  | [], _ => true
  | p :: ps, c :: cs => (c =? p) && startsWith cs ps
  | _ :: _, [] => false
  end.

(** [s.slice(n)] for a non-negative [n]. *)
Definition slice (n : nat) (s : jsstring) : jsstring := skipn n s.

(** [String(n)] for a non-negative integer. *)
Definition of_N (n : N) : jsstring :=
  lit (NilZero.string_of_uint (N.to_uint n)).

(** Stream contents in the examples are written with an apostrophe for
    the double quote and a vertical bar for the line feed. *)
Definition wire_char (a : ascii) : ascii :=
  if N_of_ascii a =? 39 then ascii_of_N 34
  else if N_of_ascii a =? 124 then ascii_of_N 10
  else a.

Definition wire_bytes (s : string) : list byte :=
  map (fun a => byte_of_ascii (wire_char a)) (list_ascii_of_string s).

Definition wire_text (s : string) : jsstring :=
  map (fun a => N_of_ascii (wire_char a)) (list_ascii_of_string s).

End JsString.

Import JsString.

(** ** The streaming UTF-8 decoder

  [new TextDecoder()] followed by [decode(value, { stream: true })]: the
  UTF-8 decoder of the Encoding Standard in replacement error mode, with
  the byte order mark stripped once; the decoder state survives between
  calls because every call passes [stream: true]. *)

Module Utf8.

Record decoder := {
  code_point : N;
  bytes_seen : N;
  bytes_needed : N;
  lower_boundary : N;
  upper_boundary : N;
  bom_seen : bool
}.

Definition fresh : decoder :=
  {| code_point := 0; bytes_seen := 0; bytes_needed := 0;
     lower_boundary := 128; upper_boundary := 191; bom_seen := false |}.

Definition reset (d : decoder) : decoder :=
  {| code_point := 0; bytes_seen := 0; bytes_needed := 0;
     lower_boundary := 128; upper_boundary := 191; bom_seen := bom_seen d |}.

Definition replacement : N := 65533.

(** A byte met when no sequence is open: the code points produced and the
    next state. *)
Definition lead (d : decoder) (b : N) : list N * decoder :=
  if b <=? 127 then ([b], d)
  else if (194 <=? b) && (b <=? 223) then
    ([], {| code_point := N.land b 31; bytes_seen := 0; bytes_needed := 1;
            lower_boundary := 128; upper_boundary := 191;
            bom_seen := bom_seen d |})
  else if (224 <=? b) && (b <=? 239) then
    ([], {| code_point := N.land b 15; bytes_seen := 0; bytes_needed := 2;
            lower_boundary := if b =? 224 then 160 else 128;
            upper_boundary := if b =? 237 then 159 else 191;
            bom_seen := bom_seen d |})
  else if (240 <=? b) && (b <=? 244) then
    ([], {| code_point := N.land b 7; bytes_seen := 0; bytes_needed := 3;
            lower_boundary := if b =? 240 then 144 else 128;
            upper_boundary := if b =? 244 then 143 else 191;
            bom_seen := bom_seen d |})
  else ([replacement], d).

(** One byte through the decoder's handler. *)
Definition handler (d : decoder) (b : N) : list N * decoder :=
  if bytes_needed d =? 0 then lead d b
  else if (b <? lower_boundary d) || (upper_boundary d <? b) then
    (* the open sequence is abandoned and the byte is read again *)
    let (out, d') := lead (reset d) b in (replacement :: out, d')
  else
    let cp := N.lor (N.shiftl (code_point d) 6) (N.land b 63) in
    let seen := bytes_seen d + 1 in
    if seen =? bytes_needed d then ([cp], reset d)
    else ([], {| code_point := cp; bytes_seen := seen;
                 bytes_needed := bytes_needed d;
                 lower_boundary := 128; upper_boundary := 191;
                 bom_seen := bom_seen d |}).

Definition set_bom_seen (d : decoder) : decoder :=
  {| code_point := code_point d; bytes_seen := bytes_seen d;
     bytes_needed := bytes_needed d; lower_boundary := lower_boundary d;
     upper_boundary := upper_boundary d; bom_seen := true |}.

(** Serialising the decoded code points: the first one is dropped when it
    is U+FEFF. *)
Fixpoint strip_bom (d : decoder) (cps : list N) : list N * decoder :=
  match cps with
  | [] => ([], d)
  | cp :: rest =>
      if bom_seen d then (cps, d)
      else let (out, d') := strip_bom (set_bom_seen d) rest in
           if cp =? 65279 then (out, d') else (cp :: out, d')
  end.

(** A code point as UTF-16 code units. *)
Definition utf16 (cp : N) : jsstring :=
  if cp <? 65536 then [cp]
  else let v := cp - 65536 in
       [55296 + N.shiftr v 10; 56320 + N.land v 1023].

Definition byte_step (d : decoder) (b : byte) : jsstring * decoder :=
  let (cps, d1) := handler d (Byte.to_N b) in
  let (out, d2) := strip_bom d1 cps in
  (flat_map utf16 out, d2).

(** [decoder.decode(value, { stream: true })]. *)
Fixpoint decode (d : decoder) (value : list byte) : jsstring * decoder :=
  match value with
  | [] => ([], d)
  | b :: rest =>
      let (s1, d1) := byte_step d b in
      let (s2, d2) := decode d1 rest in
      (s1 ++ s2, d2)
  end.

(** *** The encoder, to state what the decoder must give back *)

Definition to_byte (n : N) : byte :=
  match Byte.of_N n with Some b => b | None => x00 end.

(** The UTF-8 bytes of a code point. *)
Definition encode (cp : N) : list byte :=
  map to_byte
    (if cp <? 128 then [cp]
     else if cp <? 2048 then [192 + cp / 64; 128 + cp mod 64]
     else if cp <? 65536 then
       [224 + cp / 4096; 128 + (cp / 64) mod 64; 128 + cp mod 64]
     else [240 + cp / 262144; 128 + (cp / 4096) mod 64;
           128 + (cp / 64) mod 64; 128 + cp mod 64]).

(** Unicode scalar values: code points that are not surrogates. *)
Definition is_scalar (cp : N) : bool :=
  (cp <? 55296) || ((57344 <=? cp) && (cp <? 1114112)).

(** The decoder between two characters, once the start of the stream is
    behind. *)
Definition idle : decoder := set_bom_seen fresh.

(** The decoder inside a sequence. *)
Definition open_sequence (c seen needed lo hi : N) : decoder :=
  {| code_point := c; bytes_seen := seen; bytes_needed := needed;
     lower_boundary := lo; upper_boundary := hi; bom_seen := true |}.

(** The decoder inside the first sequence of the stream. *)
Definition first_sequence (c seen needed lo hi : N) : decoder :=
  {| code_point := c; bytes_seen := seen; bytes_needed := needed;
     lower_boundary := lo; upper_boundary := hi; bom_seen := false |}.

(** What the first character of a stream decodes to: a byte order mark is
    dropped. *)
Definition first_utf16 (cp : N) : jsstring :=
  if cp =? 65279 then [] else utf16 cp.

End Utf8.

(** ** JSON values, [JSON.parse], property access and truthiness *)

Module Json.

(** The values [JSON.parse] produces. A number is kept as the lexeme that
    denotes it; the only question ever asked of it is whether the double
    it denotes is zero. An object keeps its own properties in the order
    in which the language enumerates them. *)
#[local] Unset Elimination Schemes.
Inductive json :=
| JNull
| JBool (b : bool)
| JNum (lexeme : jsstring)
| JStr (s : jsstring)
| JArr (elems : list json)
| JObj (fields : list (jsstring * json)).
#[local] Set Elimination Schemes.

(** A JavaScript value as the consumer meets it: [undefined] or a value
    of the parsed payload (strings of the program itself are [JStr]). *)
Inductive value :=
| Undefined
| Val (j : json).

(** *** Lexical grammar *)

Inductive token :=
| TLBrace | TRBrace | TLBracket | TRBracket | TColon | TComma
| TString (s : jsstring)
| TNumber (lexeme : jsstring)
| TTrue | TFalse | TNull.

(** Positions inside a JSON number: an optional minus sign; a zero, or a
    non-zero digit and further digits; optionally a point and one or more
    digits; optionally [e] or [E], an optional sign and one or more
    digits. *)
Inductive num_state :=
| NMinus | NZero | NInt | NDot | NFrac | NExp | NExpSign | NExpDigits.

Inductive lex_mode :=
| LDefault
| LString (acc : jsstring)
| LEscape (acc : jsstring)
| LUnicode (acc : jsstring) (digits : list N)
| LNumber (st : num_state) (acc : jsstring)
| LWord (expected : jsstring) (tok : token).

Definition is_digit (c : N) : bool := (48 <=? c) && (c <=? 57).

Definition hex_value (c : N) : option N :=
  if is_digit c then Some (c - 48)
  else if (65 <=? c) && (c <=? 70) then Some (c - 55)
  else if (97 <=? c) && (c <=? 102) then Some (c - 87)
  else None.

Definition num_accepting (st : num_state) : bool :=
  match st with
  | NZero | NInt | NFrac | NExpDigits => true
  | _ => false
  end.

Definition num_next (st : num_state) (c : N) : option num_state :=
  match st with
  | NMinus => if c =? 48 then Some NZero
              else if is_digit c then Some NInt else None
  | NZero => if c =? 46 then Some NDot
             else if (c =? 101) || (c =? 69) then Some NExp else None
  | NInt => if is_digit c then Some NInt
            else if c =? 46 then Some NDot
            else if (c =? 101) || (c =? 69) then Some NExp else None
  | NDot => if is_digit c then Some NFrac else None
  | NFrac => if is_digit c then Some NFrac
             else if (c =? 101) || (c =? 69) then Some NExp else None
  | NExp => if is_digit c then Some NExpDigits
            else if (c =? 43) || (c =? 45) then Some NExpSign else None
  | NExpSign => if is_digit c then Some NExpDigits else None
  | NExpDigits => if is_digit c then Some NExpDigits else None
  end.

(** A code unit met between tokens. *)
Definition lex_default (c : N) : option (list token * lex_mode) :=
  if (c =? 9) || (c =? 10) || (c =? 13) || (c =? 32) then Some ([], LDefault)
  else if c =? 123 then Some ([TLBrace], LDefault)
  else if c =? 125 then Some ([TRBrace], LDefault)
  else if c =? 91 then Some ([TLBracket], LDefault)
  else if c =? 93 then Some ([TRBracket], LDefault)
  else if c =? 58 then Some ([TColon], LDefault)
  else if c =? 44 then Some ([TComma], LDefault)
  else if c =? 34 then Some ([], LString [])
  else if c =? 45 then Some ([], LNumber NMinus [c])
  else if c =? 48 then Some ([], LNumber NZero [c])
  else if is_digit c then Some ([], LNumber NInt [c])
  else if c =? 116 then Some ([], LWord (lit "rue") TTrue)
  else if c =? 102 then Some ([], LWord (lit "alse") TFalse)
  else if c =? 110 then Some ([], LWord (lit "ull") TNull)
  else None.

Definition unescape (c : N) : option N :=
  if (c =? 34) || (c =? 92) || (c =? 47) then Some c
  else if c =? 98 then Some 8
  else if c =? 102 then Some 12
  else if c =? 110 then Some 10
  else if c =? 114 then Some 13
  else if c =? 116 then Some 9
  else None.

Definition hex4 (ds : list N) : N :=
  fold_left (fun acc d => acc * 16 + d) ds 0.

(** One code unit through the lexer; [None] is a SyntaxError. The
    accumulators hold the code units read so far, last one first. *)
Definition lex_step (m : lex_mode) (c : N) : option (list token * lex_mode) :=
  match m with
  | LDefault => lex_default c
  | LString acc =>
      if c =? 34 then Some ([TString (rev acc)], LDefault)
      else if c =? 92 then Some ([], LEscape acc)
      else if c <? 32 then None
      else Some ([], LString (c :: acc))
  | LEscape acc =>
      if c =? 117 then Some ([], LUnicode acc [])
      else match unescape c with
           | Some u => Some ([], LString (u :: acc))
           | None => None
           end
  | LUnicode acc ds =>
      match hex_value c with
      | Some h =>
          if (List.length ds =? 3)%nat
          then Some ([], LString (hex4 (ds ++ [h]) :: acc))
          else Some ([], LUnicode acc (ds ++ [h]))
      | None => None
      end
  | LNumber st acc =>
      match num_next st c with
      | Some st' => Some ([], LNumber st' (c :: acc))
      | None =>
          if num_accepting st then
            match lex_default c with
            | Some (toks, m') => Some (TNumber (rev acc) :: toks, m')
            | None => None
            end
          else None
      end
  | LWord expected tok =>
      match expected with
      | e :: rest =>
          if c =? e then
            match rest with
            | [] => Some ([tok], LDefault)
            | _ => Some ([], LWord rest tok)
            end
          else None
      | [] => None
      end
  end.

(** The end of the text. *)
Definition lex_end (m : lex_mode) : option (list token) :=
  match m with
  | LDefault => Some []
  | LNumber st acc =>
      if num_accepting st then Some [TNumber (rev acc)] else None
  | _ => None
  end.

Fixpoint lex (m : lex_mode) (s : jsstring) : option (list token) :=
  match s with
  | [] => lex_end m
  | c :: rest =>
      match lex_step m c with
      | Some (toks, m') =>
          match lex m' rest with
          | Some more => Some (toks ++ more)
          | None => None
          end
      | None => None
      end
  end.

(** *** Syntactic grammar: a pushdown recogniser that builds the value *)

Inductive frame :=
| FArr (elems_rev : list json)
| FObj (fields : list (jsstring * json)) (key : option jsstring).

Inductive expect :=
| EValue | EValueOrClose | EKeyOrClose | EKey | EColon | ECommaOrClose
| EEnd (v : json).

(** An array index: the canonical decimal form of an integer below
    [2^32 - 1]. The keys of an object that are array indices come first,
    in ascending order; the other keys follow in the order in which they
    were created. *)
Definition array_index (k : jsstring) : option N :=
  match k with
  | [] => None
  | c :: rest =>
      if forallb is_digit k && (negb (c =? 48) || match rest with [] => true | _ => false end)
      then let n := fold_left (fun acc d => acc * 10 + (d - 48)) k 0 in
           if 4294967295 <=? n then None else Some n
      else None
  end.

(** Whether a new key [k] is enumerated before the existing key [k']. *)
Definition goes_before (k k' : jsstring) : bool :=
  match array_index k, array_index k' with
  | Some n, Some m => n <? m
  | Some _, None => true
  | None, _ => false
  end.

(** Defining a property on an object built by this function: an existing
    key keeps its place and takes the new value; a new key that is an
    array index goes among the array indices, in ascending order; any
    other new key goes last. *)
Fixpoint set_field (k : jsstring) (v : json) (fs : list (jsstring * json))
  : list (jsstring * json) :=
  match fs with
  | [] => [(k, v)]
  | (k', v') :: rest =>
      if JsString.eqb k' k then (k', v) :: rest
      else if goes_before k k' then (k, v) :: fs
      else (k', v') :: set_field k v rest
  end.

Definition deliver (v : json) (stack : list frame)
  : option (list frame * expect) :=
  match stack with
  | [] => Some ([], EEnd v)
  | FArr es :: st => Some (FArr (v :: es) :: st, ECommaOrClose)
  | FObj fs (Some k) :: st =>
      Some (FObj (set_field k v fs) None :: st, ECommaOrClose)
  | FObj _ None :: _ => None
  end.

Definition close_array (stack : list frame) : option (list frame * expect) :=
  match stack with
  | FArr es :: st => deliver (JArr (rev es)) st
  | _ => None
  end.

Definition close_object (stack : list frame) : option (list frame * expect) :=
  match stack with
  | FObj fs None :: st => deliver (JObj fs) st
  | _ => None
  end.

Definition open_key (k : jsstring) (stack : list frame)
  : option (list frame * expect) :=
  match stack with
  | FObj fs None :: st => Some (FObj fs (Some k) :: st, EColon)
  | _ => None
  end.

Definition start_value (t : token) (stack : list frame)
  : option (list frame * expect) :=
  match t with
  | TString s => deliver (JStr s) stack
  | TNumber l => deliver (JNum l) stack
  | TTrue => deliver (JBool true) stack
  | TFalse => deliver (JBool false) stack
  | TNull => deliver JNull stack
  | TLBracket => Some (FArr [] :: stack, EValueOrClose)
  | TLBrace => Some (FObj [] None :: stack, EKeyOrClose)
  | _ => None
  end.

Definition feed (stack : list frame) (e : expect) (t : token)
  : option (list frame * expect) :=
  match e, t with
  | EValue, _ => start_value t stack
  | EValueOrClose, TRBracket => close_array stack
  | EValueOrClose, _ => start_value t stack
  | EKeyOrClose, TRBrace => close_object stack
  | EKeyOrClose, TString k => open_key k stack
  | EKey, TString k => open_key k stack
  | EColon, TColon => Some (stack, EValue)
  | ECommaOrClose, TComma =>
      match stack with
      | FArr _ :: _ => Some (stack, EValue)
      | FObj _ None :: _ => Some (stack, EKey)
      | _ => None
      end
  | ECommaOrClose, TRBracket => close_array stack
  | ECommaOrClose, TRBrace => close_object stack
  | _, _ => None
  end.

Fixpoint parse_tokens (stack : list frame) (e : expect) (ts : list token)
  : option json :=
  match ts with
  | [] => match e with EEnd v => Some v | _ => None end
  | t :: rest =>
      match feed stack e t with
      | Some (stack', e') => parse_tokens stack' e' rest
      | None => None
      end
  end.

(** [JSON.parse(text)]; [None] stands for the SyntaxError it throws. *)
Definition JSON_parse (text : jsstring) : option json :=
  match lex LDefault text with
  | Some ts => parse_tokens [] EValue ts
  | None => None
  end.

(** *** Property access *)

Fixpoint lookup (k : jsstring) (fs : list (jsstring * json)) : value :=
  match fs with
  | [] => Undefined
  | (k', v) :: rest => if JsString.eqb k' k then Val v else lookup k rest
  end.

(** [data.k] for [k] one of [type], [result], [message]: the own property
    of an object, [undefined] on a boolean, number, string or array (none
    of their prototypes has such a property), and a TypeError ([None]) on
    [null]. *)
Definition get (data : json) (k : jsstring) : option value :=
  match data with
  | JNull => None
  | JObj fs => Some (lookup k fs)
  | _ => Some Undefined
  end.

(** *** Truthiness *)

(** Decimal reading of a number lexeme: the digits of the significand as
    an integer, the number of fraction digits, and the exponent. *)
Record decimal := {
  mantissa : N;
  frac_digits : Z;
  exp_neg : bool;
  exp_digits : Z
}.

Definition decimal_step (acc : decimal * num_state) (c : N)
  : decimal * num_state :=
  let (d, st) := acc in
  match num_next st c with
  | None => (d, st)
  | Some st' =>
      let d' :=
        match st' with
        | NZero | NInt =>
            {| mantissa := mantissa d * 10 + (c - 48);
               frac_digits := frac_digits d;
               exp_neg := exp_neg d; exp_digits := exp_digits d |}
        | NFrac =>
            {| mantissa := mantissa d * 10 + (c - 48);
               frac_digits := (frac_digits d + 1)%Z;
               exp_neg := exp_neg d; exp_digits := exp_digits d |}
        | NExpSign =>
            {| mantissa := mantissa d; frac_digits := frac_digits d;
               exp_neg := c =? 45; exp_digits := exp_digits d |}
        | NExpDigits =>
            {| mantissa := mantissa d; frac_digits := frac_digits d;
               exp_neg := exp_neg d;
               exp_digits := (exp_digits d * 10 + Z.of_N (c - 48))%Z |}
        | _ => d
        end in
      (d', st')
  end.

Definition read_decimal (lexeme : jsstring) : decimal :=
  let start := {| mantissa := 0; frac_digits := 0%Z;
                  exp_neg := false; exp_digits := 0%Z |} in
  match lexeme with
  | c :: rest =>
      if c =? 45 then fst (fold_left decimal_step rest (start, NMinus))
      else fst (fold_left decimal_step lexeme (start, NMinus))
  | [] => start
  end.

(** Whether the double nearest to [mantissa * 10^e] is a zero: the
    significand is zero, or the magnitude is at most [2^-1075], half the
    least positive double. *)
Definition denotes_zero (lexeme : jsstring) : bool :=
  let d := read_decimal lexeme in
  let e := ((if exp_neg d then - exp_digits d else exp_digits d)
            - frac_digits d)%Z in
  (mantissa d =? 0)
  || ((e <? 0)%Z
      && (Z.of_N (mantissa d) * 2 ^ 1075 <=? 10 ^ (- e))%Z).

(** ToBoolean. *)
Definition truthy (v : value) : bool :=
  match v with
  | Undefined => false
  | Val JNull => false
  | Val (JBool b) => b
  | Val (JNum l) => negb (denotes_zero l)
  | Val (JStr s) => negb (JsString.eqb s [])
  | Val (JArr _) => true
  | Val (JObj _) => true
  end.

(** [a || b]. *)
Definition or_else (a b : value) : value := if truthy a then a else b.

(** [v === 'literal']. *)
Definition is_string (v : value) (s : jsstring) : bool :=
  match v with
  | Val (JStr t) => JsString.eqb t s
  | _ => false
  end.

End Json.

Import Json.

(** ** The request body *)

Module Request.

(** [AnalysisRequest] of types/index.ts; an optional field is [None] when
    the property is absent or [undefined]. A [number] is a double. *)
Record AnalysisRequest := {
  tickers : list jsstring;
  selectedAnalysts : list jsstring;
  modelProvider : jsstring;
  modelName : jsstring;
  startDate : option jsstring;
  endDate : option jsstring;
  initialCash : option float;
  marginRequirement : option float
}.

(** The property values handed to [JSON.stringify]. *)
Inductive arg :=
| AUndefined
| AString (s : jsstring)
| AStrings (l : list jsstring)
| ANumber (f : float).

(** The JSON text produced, as its syntax tree. *)
Inductive wire :=
| WNull
| WString (s : jsstring)
| WStrings (l : list jsstring)
| WNumber (f : float).

(** ToBoolean of a number: false on NaN, [+0] and [-0]. *)
Definition number_truthy (f : float) : bool :=
  negb (PrimFloat.is_nan f || PrimFloat.is_zero f).

(** [x || dflt] for an optional number [x]. *)
Definition number_or (x : option float) (dflt : float) : float :=
  match x with
  | Some f => if number_truthy f then f else dflt
  | None => dflt
  end.

Definition optional_string (x : option jsstring) : arg :=
  match x with
  | Some s => AString s
  | None => AUndefined
  end.

(** The object literal of the [body] argument. *)
Definition body_object (request : AnalysisRequest) : list (string * arg) :=
  [ ("tickers"%string, AStrings (tickers request));
    ("selected_agents"%string, AStrings (selectedAnalysts request));
    ("model_name"%string, AString (modelName request));
    ("model_provider"%string, AString (modelProvider request));
    ("start_date"%string, optional_string (startDate request));
    ("end_date"%string, optional_string (endDate request));
    ("initial_cash"%string, ANumber (number_or (initialCash request) 100000%float));
    ("margin_requirement"%string,
      ANumber (number_or (marginRequirement request) 0%float)) ].

(** [JSON.stringify] on a property value: [undefined] is left out, a
    number that is not finite is written [null]. *)
Definition serialize (a : arg) : option wire :=
  match a with
  | AUndefined => None
  | AString s => Some (WString s)
  | AStrings l => Some (WStrings l)
  | ANumber f => Some (if PrimFloat.is_finite f then WNumber f else WNull)
  end.

Fixpoint JSON_stringify (props : list (string * arg)) : list (string * wire) :=
  match props with
  | [] => []
  | (k, a) :: rest =>
      match serialize a with
      | Some w => (k, w) :: JSON_stringify rest
      | None => JSON_stringify rest
      end
  end.

Definition request_body (request : AnalysisRequest) : list (string * wire) :=
  JSON_stringify (body_object request).

Fixpoint field (k : string) (body : list (string * wire)) : option wire :=
  match body with
  | [] => None
  | (k', w) :: rest => if String.eqb k' k then Some w else field k rest
  end.

End Request.

(** ** The stream consumer *)

Module Stream.

Import Utf8.

(** An invocation of one of the three callbacks. *)
Inductive call :=
| OnProgress (data : json)
| OnComplete (result : value)
| OnError (error : value).

(** What a run does that can be observed, in order. [CancelCalled] marks
    the moment the handle returned by [runAnalysis] is invoked. *)
Inductive event :=
| Call (c : call)
| CancelCalled
| ConsoleError (label : string)
| ConsoleLog (label : string).

(** What a callback does when invoked: whether it invokes the cancel
    handle, and whether it throws instead of returning. *)
Record reaction := { cancels : bool; throws : bool }.

(** The three callbacks of the caller, as a function of the invocations
    made so far (latest first) and of the present one. *)
Definition handlers := list call -> call -> reaction.

(** An exception: its [name] and [message] properties. *)
Record js_error := { name : jsstring; message : jsstring }.

(** What [fetch] and the body reader reject with once the controller has
    aborted. *)
Definition abort_error : js_error :=
  {| name := lit "AbortError"; message := lit "The operation was aborted." |}.

(** The state of a run that callbacks can change. *)
Record session := { hist : list call; aborted : bool }.

Inductive flow := Continue | Return.

Definition parse_label : string := "Error parsing SSE data:".
Definition cancelled_label : string := "Analysis cancelled".
Definition failure_label : string := "Analysis error:".
Definition fallback : value := Val (JStr (lit "Analysis failed")).

Definition cancel_events (r : reaction) : list event :=
  if cancels r then [CancelCalled] else [].

Definition after_call (s : session) (c : call) (r : reaction) : session :=
  {| hist := c :: hist s; aborted := aborted s || cancels r |}.

(** A callback invoked inside the [try] of the line loop: when it throws,
    the [catch] of that [try] logs and the loop goes on, also past the
    [return] that follows a terminal callback. *)
Definition callback (h : handlers) (s : session) (c : call) (next : flow)
  : list event * session * flow :=
  let r := h (hist s) c in
  if throws r
  then (Call c :: cancel_events r ++ [ConsoleError parse_label],
        after_call s c r, Continue)
  else (Call c :: cancel_events r, after_call s c r, next).

Definition caught (s : session) : list event * session * flow :=
  ([ConsoleError parse_label], s, Continue).

(** The body of the [try] once [JSON.parse] has returned [data]. *)
Definition dispatch (h : handlers) (s : session) (data : json)
  : list event * session * flow :=
  match get data (lit "type") with
  | None => caught s
  | Some t =>
      if is_string t (lit "progress") then
        callback h s (OnProgress data) Continue
      else if is_string t (lit "complete") then
        match get data (lit "result") with
        | Some result => callback h s (OnComplete result) Return
        | None => caught s
        end
      else if is_string t (lit "error") then
        match get data (lit "message") with
        | Some m => callback h s (OnError (or_else m fallback)) Return
        | None => caught s
        end
      else ([], s, Continue)
  end.

(** One iteration of [for (const line of lines)]. *)
Definition process_line (h : handlers) (s : session) (line : jsstring)
  : list event * session * flow :=
  if JsString.eqb (trim line) [] then ([], s, Continue)
  else if startsWith line (lit "data: ") then
    match JSON_parse (slice 6 line) with
    | Some data => dispatch h s data
    | None => caught s
    end
  else ([], s, Continue).

Fixpoint process_lines (h : handlers) (s : session) (lines : list jsstring)
  : list event * session * flow :=
  match lines with
  | [] => ([], s, Continue)
  | line :: rest =>
      let '(ev, s1, f) := process_line h s line in
      match f with
      | Return => (ev, s1, Return)
      | Continue =>
          let '(ev2, s2, f2) := process_lines h s1 rest in
          (ev ++ ev2, s2, f2)
      end
  end.

(** *** The transport, as the run meets it *)

(** While the body is read, either a chunk arrives or the caller invokes
    the cancel handle. *)
Inductive body_item :=
| Chunk (value : list byte)
| CancelCall.

(** How the body ends: the stream closes, the read fails, or nothing more
    happens while the run is observed. *)
Inductive body_end :=
| Done
| ReadFails (e : js_error)
| Pending.

Inductive fetch_result :=
| NoResponse
| FetchFails (e : js_error)
| Responds (ok : bool) (status : N)
           (body : option (list body_item * body_end)).

(** [cancel_first]: the cancel handle is invoked before the response
    arrives, whatever was in flight. *)
Record network := { cancel_first : bool; fetched : fetch_result }.

(** How the [while (true)] loop is left. *)
Inductive exit :=
| Returned
| Broke
| Threw (e : js_error)
| Awaiting.

(** The [while (true)] loop. Once the controller has aborted, the pending
    or next [reader.read()] rejects with an AbortError and nothing that is
    still in flight is delivered. *)
Fixpoint read_loop (h : handlers) (d : decoder) (buffer : jsstring)
    (s : session) (items : list body_item) (fin : body_end)
  : list event * session * exit :=
  if aborted s then ([], s, Threw abort_error)
  else
    match items with
    | [] =>
        match fin with
        | Done => ([], s, Broke)
        | ReadFails e => ([], s, Threw e)
        | Pending => ([], s, Awaiting)
        end
    | CancelCall :: rest =>
        let '(ev, s', x) :=
          read_loop h d buffer {| hist := hist s; aborted := true |} rest fin in
        (CancelCalled :: ev, s', x)
    | Chunk value :: rest =>
        let (text, d') := decode d value in
        let lines := split_nl (buffer ++ text) in
        let buffer' := pop_or_empty lines in
        let '(ev, s1, f) := process_lines h s (removelast lines) in
        match f with
        | Return => (ev, s1, Returned)
        | Continue =>
            let '(ev2, s2, x) := read_loop h d' buffer' s1 rest fin in
            (ev ++ ev2, s2, x)
        end
    end.

(** How the promise of [runStream] stands at the end of the run. *)
Inductive settle := Fulfilled | Rejected | Suspended.

(** The outer [catch]. An exception of [onError] itself leaves the
    function and rejects its promise. *)
Definition catch (h : handlers) (s : session) (e : js_error)
  : list event * settle :=
  if JsString.eqb (name e) (lit "AbortError")
  then ([ConsoleLog cancelled_label], Fulfilled)
  else
    let c := OnError (or_else (Val (JStr (message e))) fallback) in
    let r := h (hist s) c in
    (ConsoleError failure_label :: Call c :: cancel_events r,
     if throws r then Rejected else Fulfilled).

Definition http_error (status : N) : js_error :=
  {| name := lit "Error";
     message := lit "HTTP error! status: " ++ JsString.of_N status |}.

Definition no_reader : js_error :=
  {| name := lit "Error"; message := lit "Failed to get response reader" |}.

Definition start : session := {| hist := []; aborted := false |}.

(** [runStream]: the events of the run and the state of its promise. *)
Definition runStream (h : handlers) (net : network) : list event * settle :=
  if cancel_first net then
    let (ev, p) := catch h start abort_error in (CancelCalled :: ev, p)
  else
    match fetched net with
    | NoResponse => ([], Suspended)
    | FetchFails e => catch h start e
    | Responds ok status body =>
        if negb ok then catch h start (http_error status)
        else
          match body with
          | None => catch h start no_reader
          | Some (items, fin) =>
              let '(ev, s, x) := read_loop h fresh [] start items fin in
              match x with
              | Returned | Broke => (ev, Fulfilled)
              | Awaiting => (ev, Suspended)
              | Threw e => let (ev2, p) := catch h s e in (ev ++ ev2, p)
              end
          end
    end.

(** The result of the call [runAnalysis(request, ...)] itself: it returns
    the cancel handle, or an exception crosses to the caller. *)
Inductive completion :=
| ReturnsHandle
| ThrowsToCaller (e : js_error).

Record run := {
  completed : completion;
  (** callbacks invoked before [runAnalysis] returned *)
  before_return : list event;
  body_sent : list (string * Request.wire);
  events : list event;
  promise : settle
}.

(** [runAnalysis]: the controller is created, [runStream()] runs up to its
    first [await] (the request is issued) and the handle is returned; the
    rest of [runStream] happens afterwards. *)
Definition runAnalysis (request : Request.AnalysisRequest) (h : handlers)
    (net : network) : run :=
  let (ev, p) := runStream h net in
  {| completed := ReturnsHandle;
     before_return := [];
     body_sent := Request.request_body request;
     events := ev;
     promise := p |}.

(** The callbacks among the events. *)
Fixpoint calls (evs : list event) : list call :=
  match evs with
  | [] => []
  | Call c :: rest => c :: calls rest
  | _ :: rest => calls rest
  end.

Definition is_terminal (c : call) : bool :=
  match c with
  | OnProgress _ => false
  | OnComplete _ | OnError _ => true
  end.

(** Callbacks that return normally and never touch the cancel handle. *)
Definition quiet : handlers :=
  fun _ _ => {| cancels := false; throws := false |}.

(** A response with status 200 and the given body. *)
Definition streaming (items : list body_item) (fin : body_end) : network :=
  {| cancel_first := false; fetched := Responds true 200 (Some (items, fin)) |}.

(** *** Vocabulary of the statements *)

(** The text the chunks of a body decode to, from decoder state [d]. *)
Fixpoint received (d : decoder) (items : list body_item) : jsstring :=
  match items with
  | [] => []
  | Chunk value :: rest =>
      let (text, d') := decode d value in text ++ received d' rest
  | CancelCall :: rest => received d rest
  end.

(** The lines of a text that a line feed has closed. *)
Definition complete_lines (text : jsstring) : list jsstring :=
  removelast (split_nl text).

(** A line that carries a [complete] or [error] frame. *)
Definition terminal_frame (line : jsstring) : bool :=
  startsWith line (lit "data: ")
  && match JSON_parse (slice 6 line) with
     | Some data =>
         match get data (lit "type") with
         | Some t => is_string t (lit "complete") || is_string t (lit "error")
         | None => false
         end
     | None => false
     end.

Definition never_cancels (h : handlers) : Prop :=
  forall past c, cancels (h past c) = false.

Definition never_throws (h : handlers) : Prop :=
  forall past c, throws (h past c) = false.

Definition is_chunk (i : body_item) : bool :=
  match i with Chunk _ => true | CancelCall => false end.

(** How the loop is left when the body is exhausted. *)
Definition end_exit (fin : body_end) : exit :=
  match fin with
  | Done => Broke
  | ReadFails e => Threw e
  | Pending => Awaiting
  end.

Definition progress_only (cs : list call) : Prop :=
  Forall (fun c => is_terminal c = false) cs.

(** Invocations of [onProgress], then at most one terminal callback, and
    nothing after it. *)
Definition single_terminal (cs : list call) : Prop :=
  exists ps t,
    cs = ps ++ t /\ progress_only ps
    /\ (t = [] \/ exists c, t = [c] /\ is_terminal c = true).

(** What a stretch of the run may have invoked: [onProgress] only while
    the loop goes on, and one terminal callback last when it returns. *)
Definition stretch (ev : list event) (returned : bool) : Prop :=
  if returned
  then exists ps c, calls ev = ps ++ [c] /\ progress_only ps /\ is_terminal c = true
  else progress_only (calls ev).

Definition returns (f : flow) : bool :=
  match f with Return => true | Continue => false end.

Definition left_by_return (x : exit) : bool :=
  match x with Returned => true | _ => false end.

(** The lines the protocol lets through without effect: blank ones, those
    without the prefix, and frames whose [type] is none of the three. *)
Definition ignorable (line : jsstring) : Prop :=
  trim line = []
  \/ startsWith line (lit "data: ") = false
  \/ (exists data t,
        startsWith line (lit "data: ") = true
        /\ JSON_parse (slice 6 line) = Some data
        /\ get data (lit "type") = Some t
        /\ is_string t (lit "progress") = false
        /\ is_string t (lit "complete") = false
        /\ is_string t (lit "error") = false).

(** No callback is invoked after any invocation of the cancel handle. *)
Definition silent_after_cancel (evs : list event) : Prop :=
  forall before after,
    evs = before ++ CancelCalled :: after -> calls after = [].


(** Callbacks that invoke the cancel handle whenever they are called. *)
Definition cancelling : handlers :=
  fun _ _ => {| cancels := true; throws := false |}.

(** An [onComplete] that throws; the other callbacks return. *)
Definition complete_throws : handlers :=
  fun _ c =>
    {| cancels := false;
       throws := match c with OnComplete _ => true | _ => false end |}.

End Stream.

(** ** [encodeURIComponent] *)

Module Uri.

(** The characters [encodeURIComponent] leaves as they are: letters,
    digits and [- _ . ! ~ * ' ( )]. *)
Definition unreserved (c : N) : bool :=
  ((65 <=? c) && (c <=? 90)) || ((97 <=? c) && (c <=? 122))
  || ((48 <=? c) && (c <=? 57))
  || (c =? 45) || (c =? 95) || (c =? 46) || (c =? 33) || (c =? 126)
  || (c =? 42) || (c =? 39) || (c =? 40) || (c =? 41).

Definition hex_digit (n : N) : N := if n <? 10 then 48 + n else 55 + n.

(** One octet as [%XX], upper case. *)
Definition percent (b : byte) : jsstring :=
  [37; hex_digit (Byte.to_N b / 16); hex_digit (Byte.to_N b mod 16)].

(** A code point as the escapes of its UTF-8 octets. *)
Definition escape (cp : N) : jsstring := flat_map percent (Utf8.encode cp).

Definition is_high (c : N) : bool := (55296 <=? c) && (c <=? 56319).
Definition is_low (c : N) : bool := (56320 <=? c) && (c <=? 57343).

(** [encodeURIComponent(s)]; [None] is the URIError thrown on a surrogate
    that has no partner. *)
Fixpoint encodeURIComponent (s : jsstring) : option jsstring :=
  match s with
  | [] => Some []
  | c :: rest =>
      if unreserved c then option_map (cons c) (encodeURIComponent rest)
      else if is_high c then
        match rest with
        | d :: rest' =>
            if is_low d
            then option_map
                   (app (escape (65536 + (c - 55296) * 1024 + (d - 56320))))
                   (encodeURIComponent rest')
            else None
        | [] => None
        end
      else if is_low c then None
      else option_map (app (escape c)) (encodeURIComponent rest)
  end.

(** What a server does with the component: the octets that the escapes
    and the plain characters stand for. *)
Fixpoint percent_decode (s : jsstring) : option (list byte) :=
  match s with
  | [] => Some []
  | c :: rest =>
      if c =? 37 then
        match rest with
        | hi :: lo :: rest' =>
            match hex_value hi, hex_value lo with
            | Some a, Some b =>
                option_map (cons (Utf8.to_byte (a * 16 + b))) (percent_decode rest')
            | _, _ => None
            end
        | _ => None
        end
      else option_map (cons (Utf8.to_byte c)) (percent_decode rest)
  end.

(** The characters a component is made of: the unreserved ones and the
    percent sign of the escapes. *)
Definition component_char (c : N) : bool := unreserved c || (c =? 37).

(** A string of 16-bit code units. *)
Definition sixteen_bit (s : jsstring) : Prop := Forall (fun c => c < 65536) s.

(** A surrogate without a partner, at the place of [c] between [before]
    and [after]: a high surrogate that no low one follows, or a low
    surrogate that no high one precedes. *)
Definition lone_surrogate (before : jsstring) (c : N) (after : jsstring) : Prop :=
  (is_high c = true
   /\ match after with d :: _ => is_low d = false | [] => True end)
  \/ (is_low c = true /\ is_high (last before 0) = false).

End Uri.

(** ** The request wrappers of the API client *)

Module Api.

Import Uri.

Inductive http_request :=
| Get (url : jsstring)
| Post (url : jsstring) (body : json).

(** What the axios call does: it rejects (no connection, time-out, a
    status outside 2xx), or resolves with the parsed body in
    [response.data]. *)
Inductive axios_outcome :=
| AxiosRejects
| AxiosResolves (data : value).

Definition server := http_request -> axios_outcome.

(** What a wrapper leaves behind: the requests it has issued, the labels
    it has passed to [console.error], and the value it resolves with. *)
Record reply := {
  requests : list http_request;
  logs : list string;
  result : value
}.

(** [response.data.data]; [None] is the TypeError on a body that is
    [undefined] or [null]. *)
Definition data_of (body : value) : option value :=
  match body with
  | Undefined => None
  | Val j => get j (lit "data")
  end.

(** The shape all the wrappers share:
    [try { const response = await api...; return response.data.data || dflt }
     catch (error) { console.error(label, error); return dflt }]. *)
Definition guarded (srv : server) (r : http_request) (label : string)
    (dflt : json) : reply :=
  match srv r with
  | AxiosRejects =>
      {| requests := [r]; logs := [label]; result := Val dflt |}
  | AxiosResolves body =>
      match data_of body with
      | None => {| requests := [r]; logs := [label]; result := Val dflt |}
      | Some v =>
          {| requests := [r]; logs := []; result := or_else v (Val dflt) |}
      end
  end.

Definition searchStocks (srv : server) (query : jsstring) : reply :=
  match encodeURIComponent query with
  | None =>
      {| requests := []; logs := ["Error searching stocks:"%string];
         result := Val (JArr []) |}
  | Some q =>
      guarded srv (Get (lit "/stocks/search?q=" ++ q))
              "Error searching stocks:" (JArr [])
  end.

Definition getCompanyFacts (srv : server) (ticker : jsstring) : reply :=
  guarded srv (Get (lit "/stocks/" ++ ticker ++ lit "/facts"))
          "Error fetching company facts:" JNull.

Definition all_invalid (tickers : list jsstring) : json :=
  JObj [(lit "valid", JArr []); (lit "invalid", JArr (map JStr tickers))].

Definition validateTickers (srv : server) (tickers : list jsstring) : reply :=
  guarded srv
          (Post (lit "/stocks/validate")
                (JObj [(lit "tickers", JArr (map JStr tickers))]))
          "Error validating tickers:" (all_invalid tickers).

Definition getAvailableAnalysts (srv : server) : reply :=
  guarded srv (Get (lit "/analysts")) "Error fetching analysts:" (JArr []).

Definition getAvailableProviders (srv : server) : reply :=
  guarded srv (Get (lit "/llm/providers")) "Error fetching LLM providers:" (JArr []).

Definition getAvailableModels (srv : server) (provider : jsstring) : reply :=
  guarded srv (Get (lit "/llm/providers/" ++ provider ++ lit "/models"))
          "Error fetching models for provider:" (JArr []).

Definition not_running : json :=
  JObj [(lit "running", JBool false); (lit "models", JArr [])].

Definition checkOllamaStatus (srv : server) : reply :=
  guarded srv (Get (lit "/llm/ollama/status")) "Error checking Ollama status:"
          not_running.

Definition checkLMStudioStatus (srv : server) : reply :=
  guarded srv (Get (lit "/llm/lmstudio/status")) "Error checking LM Studio status:"
          not_running.

(** A server that is of no use to a wrapper: the request is rejected, or
    the body has no [data] that is truthy. *)
Definition unhelpful (o : axios_outcome) : Prop :=
  match o with
  | AxiosRejects => True
  | AxiosResolves body =>
      match data_of body with
      | None => True
      | Some v => truthy v = false
      end
  end.

(** A server that answers every request with a status outside 2xx. *)
Definition no_server : server := fun _ => AxiosRejects.

End Api.

(** ** The form, its validation and the state of the analysis *)

Module App.

Record Stock := {
  ticker : jsstring;
  name : jsstring;
  exchange : option jsstring;
  sector : option jsstring;
  industry : option jsstring
}.

Record FormData := {
  selectedStocks : list Stock;
  selectedAnalysts : list jsstring;
  selectedProvider : jsstring;
  selectedModel : jsstring;
  startDate : jsstring;
  endDate : jsstring;
  initialCash : float;
  marginRequirement : float
}.

(** [FormErrors]: a key is present when its field is [Some]. *)
Record FormErrors := {
  stocks : option jsstring;
  analysts : option jsstring;
  provider : option jsstring;
  model : option jsstring
}.

Definition no_stock : jsstring := lit "Please select at least one stock".
Definition no_analyst : jsstring := lit "Please select at least one analyst".
Definition no_provider : jsstring := lit "Please select an LLM provider".
Definition no_model : jsstring := lit "Please select a model".

(** [!s] for a string. *)
Definition blank (s : jsstring) : bool :=
  match s with [] => true | _ => false end.

Definition is_empty {A} (l : list A) : bool :=
  match l with [] => true | _ => false end.

Definition validateForm (f : FormData) : FormErrors :=
  {| stocks := if is_empty (selectedStocks f) then Some no_stock else None;
     analysts := if is_empty (selectedAnalysts f) then Some no_analyst else None;
     provider := if blank (selectedProvider f) then Some no_provider else None;
     model := if blank (selectedModel f) then Some no_model else None |}.

(** [Object.keys(errors)]. *)
Definition keys (e : FormErrors) : list jsstring :=
  match stocks e with Some _ => [lit "stocks"] | None => [] end
  ++ match analysts e with Some _ => [lit "analysts"] | None => [] end
  ++ match provider e with Some _ => [lit "provider"] | None => [] end
  ++ match model e with Some _ => [lit "model"] | None => [] end.

(** The messages of the errors, in the order of the keys. *)
Definition messages (e : FormErrors) : list jsstring :=
  match stocks e with Some m => [m] | None => [] end
  ++ match analysts e with Some m => [m] | None => [] end
  ++ match provider e with Some m => [m] | None => [] end
  ++ match model e with Some m => [m] | None => [] end.

(** The request [handleStartAnalysis] builds from the form. *)
Definition analysisRequest (f : FormData) : Request.AnalysisRequest :=
  {| Request.tickers := map ticker (selectedStocks f);
     Request.selectedAnalysts := selectedAnalysts f;
     Request.modelProvider := selectedProvider f;
     Request.modelName := selectedModel f;
     Request.startDate := Some (startDate f);
     Request.endDate := Some (endDate f);
     Request.initialCash := Some (initialCash f);
     Request.marginRequirement := Some (marginRequirement f) |}.

(** [handleStartAnalysis]: the errors it stores, and the request it hands
    to [runAnalysis] when there is none. *)
Definition handleStartAnalysis (f : FormData)
  : FormErrors * option Request.AnalysisRequest :=
  let errors := validateForm f in
  if (0 <? List.length (keys errors))%nat then (errors, None)
  else (errors, Some (analysisRequest f)).

Record AnalysisState := {
  isRunning : bool;
  progress : list json;
  result : value;
  error : value;
  cancelFunction : bool
}.

(** The state once [handleStartAnalysis] has started a run: reset, running,
    and holding the cancel handle. *)
Definition started : AnalysisState :=
  {| isRunning := true; progress := []; result := Val JNull;
     error := Val JNull; cancelFunction := true |}.

(** The three callbacks [handleStartAnalysis] passes to [runAnalysis]. *)
Definition on_call (st : AnalysisState) (c : Stream.call) : AnalysisState :=
  match c with
  | Stream.OnProgress p =>
      {| isRunning := isRunning st; progress := progress st ++ [p];
         result := result st; error := error st;
         cancelFunction := cancelFunction st |}
  | Stream.OnComplete r =>
      {| isRunning := false; progress := progress st;
         result := r; error := error st;
         cancelFunction := cancelFunction st |}
  | Stream.OnError e =>
      {| isRunning := false; progress := progress st;
         result := result st; error := e;
         cancelFunction := cancelFunction st |}
  end.

(** They only update the state: they return, and do not cancel. *)
Definition callbacks : Stream.handlers :=
  fun _ _ => {| Stream.cancels := false; Stream.throws := false |}.

(** The state update of [handleCancelAnalysis], the only place where the
    cancel handle is invoked. *)
Definition handleCancelAnalysis (st : AnalysisState) : AnalysisState :=
  {| isRunning := false; progress := progress st; result := result st;
     error := error st; cancelFunction := false |}.

Definition step (st : AnalysisState) (ev : Stream.event) : AnalysisState :=
  match ev with
  | Stream.Call c => on_call st c
  | Stream.CancelCalled => handleCancelAnalysis st
  | _ => st
  end.

(** The state of the application after the events of a run. *)
Definition after (evs : list Stream.event) : AnalysisState :=
  fold_left step evs started.

(** The payloads handed to [onProgress], in order. *)
Fixpoint progress_payloads (cs : list Stream.call) : list json :=
  match cs with
  | [] => []
  | Stream.OnProgress p :: rest => p :: progress_payloads rest
  | _ :: rest => progress_payloads rest
  end.

(** *** The analysis panel *)

(** [a && b]. *)
Definition and_then (a b : value) : value := if truthy a then b else a.

Definition canStartAnalysis (f : FormData) (st : AnalysisState) : value :=
  and_then
    (and_then
       (and_then
          (and_then (Val (JBool (negb (is_empty (selectedStocks f)))))
                    (Val (JBool (negb (is_empty (selectedAnalysts f))))))
          (Val (JStr (selectedProvider f))))
       (Val (JStr (selectedModel f))))
    (Val (JBool (negb (isRunning st)))).

(** [disabled={!canStartAnalysis()}] on the start button. *)
Definition start_enabled (f : FormData) (st : AnalysisState) : bool :=
  truthy (canStartAnalysis f st).

Definition getValidationErrors (f : FormData) : list jsstring :=
  (if is_empty (selectedStocks f) then [no_stock] else [])
  ++ (if is_empty (selectedAnalysts f) then [no_analyst] else [])
  ++ (if blank (selectedProvider f) then [no_provider] else [])
  ++ (if blank (selectedModel f) then [no_model] else []).

(** *** Loading the models of a provider *)

(** What [loadModels] leaves behind: the requests it has issued, the labels
    passed to [console.error], the value last stored with [setModels], and
    whether the selected model was reset to the empty string. *)
Record loaded := {
  asked : list Api.http_request;
  logged : list string;
  models : value;
  model_reset : bool
}.

(** [{ id: model, name: model, provider }]. *)
Definition local_model (provider : jsstring) (m : json) : json :=
  JObj [(lit "id", m); (lit "name", m); (lit "provider", JStr provider)].

(** The list built from the status of a local provider:
    [status.models.map(...)] when [status.running] is truthy, the empty
    list otherwise. [None] is a TypeError: a status that is [null], or
    models that are not an array. *)
Definition local_models (provider : jsstring) (status : value) : option value :=
  match status with
  | Undefined => None
  | Val st =>
      match get st (lit "running") with
      | None => None
      | Some running =>
          if truthy running then
            match get st (lit "models") with
            | Some (Val (JArr ms)) =>
                Some (Val (JArr (map (local_model provider) ms)))
            | _ => None
            end
          else Some (Val (JArr []))
      end
  end.

(** [data.find(m => m.id === selectedModel)] on the elements of an array:
    whether an element is found; [None] is the TypeError of [m.id] on a
    [null] element met before one is found. *)
Fixpoint find_id (selectedModel : jsstring) (ms : list json) : option bool :=
  match ms with
  | [] => Some false
  | m :: rest =>
      match get m (lit "id") with
      | None => None
      | Some v =>
          if is_string v selectedModel then Some true
          else find_id selectedModel rest
      end
  end.

(** The catch block: the error is logged and the list is emptied. *)
Definition load_failed (asked : list Api.http_request) (logged : list string)
  : loaded :=
  {| asked := asked; logged := logged ++ ["Failed to load models:"%string];
     models := Val (JArr []); model_reset := false |}.

(** From [setModels(data)] on. *)
Definition store_models (asked : list Api.http_request) (logged : list string)
    (selectedModel : jsstring) (data : option value) : loaded :=
  match data with
  | None => load_failed asked logged
  | Some d =>
      if blank selectedModel then
        {| asked := asked; logged := logged; models := d; model_reset := false |}
      else
        match d with
        | Val (JArr ms) =>
            match find_id selectedModel ms with
            | None => load_failed asked logged
            | Some found =>
                {| asked := asked; logged := logged; models := d;
                   model_reset := negb found |}
            end
        | _ => load_failed asked logged
        end
  end.

(** [loadModels(provider)], in a render whose form has [selectedModel]. *)
Definition loadModels (srv : Api.server) (selectedModel provider : jsstring)
  : loaded :=
  if JsString.eqb provider (lit "Ollama") then
    let status := Api.checkOllamaStatus srv in
    store_models (Api.requests status) (Api.logs status) selectedModel
                 (local_models (lit "Ollama") (Api.result status))
  else if JsString.eqb provider (lit "LMStudio") then
    let status := Api.checkLMStudioStatus srv in
    store_models (Api.requests status) (Api.logs status) selectedModel
                 (local_models (lit "LMStudio") (Api.result status))
  else
    let data := Api.getAvailableModels srv provider in
    store_models (Api.requests data) (Api.logs data) selectedModel
                 (Some (Api.result data)).

(** The form with another model selected. *)
Definition with_model (f : FormData) (m : jsstring) : FormData :=
  {| selectedStocks := selectedStocks f;
     selectedAnalysts := selectedAnalysts f;
     selectedProvider := selectedProvider f;
     selectedModel := m;
     startDate := startDate f;
     endDate := endDate f;
     initialCash := initialCash f;
     marginRequirement := marginRequirement f |}.

End App.

(** ** The stock selector *)

Module StockSelector.

Import App.

(** [selectedStocks.some(selected => selected.ticker === stock.ticker)]. *)
Definition is_selected (selectedStocks : list Stock) (stock : Stock) : bool :=
  existsb (fun selected => JsString.eqb (ticker selected) (ticker stock))
          selectedStocks.

(** The results [debouncedSearch] shows: what was found, without the
    stocks whose ticker is selected already. *)
Definition filteredResults (selectedStocks results : list Stock) : list Stock :=
  filter (fun stock => negb (is_selected selectedStocks stock)) results.

(** [handleStockSelect]: the list handed to [onChange]; [None] when the
    handler returns without calling it. [maxSelections] is a count. *)
Definition handleStockSelect (maxSelections : nat) (selectedStocks : list Stock)
    (stock : Stock) : option (list Stock) :=
  if (maxSelections <=? List.length selectedStocks)%nat then None
  else Some (selectedStocks ++ [stock]).

Definition handleStockRemove (selectedStocks : list Stock)
    (tickerToRemove : jsstring) : list Stock :=
  filter (fun stock => negb (JsString.eqb (ticker stock) tickerToRemove))
         selectedStocks.

(** What the user does to the selection. *)
Inductive action :=
| Select (stock : Stock)
| Remove (tickerToRemove : jsstring).

(** The selection the parent holds after an action: [onChange] replaces
    it. *)
Definition perform (maxSelections : nat) (selectedStocks : list Stock)
    (a : action) : list Stock :=
  match a with
  | Select stock =>
      match handleStockSelect maxSelections selectedStocks stock with
      | Some stocks => stocks
      | None => selectedStocks
      end
  | Remove t => handleStockRemove selectedStocks t
  end.

(** Every stock selected along the way is one of the results filtered
    against the selection of that moment. *)
Fixpoint picked_from_results (maxSelections : nat) (selectedStocks : list Stock)
    (actions : list action) : Prop :=
  match actions with
  | [] => True
  | a :: rest =>
      match a with
      | Select stock =>
          exists results, In stock (filteredResults selectedStocks results)
      | Remove _ => True
      end
      /\ picked_from_results maxSelections
                             (perform maxSelections selectedStocks a) rest
  end.

End StockSelector.

(** ** The analyst selector *)

Module AnalystSelector.

Record Analyst := {
  id : jsstring;
  displayName : jsstring;
  description : option jsstring
}.

(** [list.includes(x)] on strings. *)
Definition includes (l : list jsstring) (x : jsstring) : bool :=
  existsb (fun y => JsString.eqb y x) l.

Definition handleAnalystToggle (selectedAnalysts : list jsstring)
    (analystId : jsstring) : list jsstring :=
  if includes selectedAnalysts analystId
  then filter (fun i => negb (JsString.eqb i analystId)) selectedAnalysts
  else selectedAnalysts ++ [analystId].

Definition handleSelectAll (analysts : list Analyst)
    (selectedAnalysts : list jsstring) : list jsstring :=
  if (List.length selectedAnalysts =? List.length analysts)%nat then []
  else map id analysts.

Definition handleSelectNone : list jsstring := [].

Definition getAnalystName (analysts : list Analyst) (analystId : jsstring)
  : jsstring :=
  match find (fun a => JsString.eqb (id a) analystId) analysts with
  | Some analyst => displayName analyst
  | None => analystId
  end.

(** A quick preset: the analysts whose id is in a fixed list. *)
Definition preset (ids : list jsstring) (analysts : list Analyst)
  : list jsstring :=
  map id (filter (fun a => includes ids (id a)) analysts).

Definition valueInvestors : list Analyst -> list jsstring :=
  preset [lit "warren_buffett"; lit "ben_graham"; lit "charlie_munger"].

Definition growthInvestors : list Analyst -> list jsstring :=
  preset [lit "cathie_wood"; lit "peter_lynch"; lit "phil_fisher"].

Definition technicalAnalysts : list Analyst -> list jsstring :=
  preset [lit "technicals_analyst"; lit "sentiment_analyst"].

(** The controls of the component. *)
Inductive action :=
| Toggle (analystId : jsstring)
| SelectAll
| SelectNone
| ValueInvestors
| GrowthInvestors
| TechnicalAnalysis.

Definition perform (analysts : list Analyst) (selectedAnalysts : list jsstring)
    (a : action) : list jsstring :=
  match a with
  | Toggle analystId => handleAnalystToggle selectedAnalysts analystId
  | SelectAll => handleSelectAll analysts selectedAnalysts
  | SelectNone => handleSelectNone
  | ValueInvestors => valueInvestors analysts
  | GrowthInvestors => growthInvestors analysts
  | TechnicalAnalysis => technicalAnalysts analysts
  end.

(** The component offers a toggle for each analyst (its checkbox) and for
    each selected id (its chip). *)
Definition offered (analysts : list Analyst) (selectedAnalysts : list jsstring)
    (a : action) : Prop :=
  match a with
  | Toggle analystId =>
      In analystId (map id analysts) \/ In analystId selectedAnalysts
  | _ => True
  end.

Fixpoint all_offered (analysts : list Analyst) (selectedAnalysts : list jsstring)
    (actions : list action) : Prop :=
  match actions with
  | [] => True
  | a :: rest =>
      offered analysts selectedAnalysts a
      /\ all_offered analysts (perform analysts selectedAnalysts a) rest
  end.

(** [allSelected], the test behind the label of the select-all button. *)
Definition allSelected (analysts : list Analyst)
    (selectedAnalysts : list jsstring) : bool :=
  (List.length selectedAnalysts =? List.length analysts)%nat.

End AnalystSelector.

(** ** The model selector *)

Module ModelSelector.

(** [handleCustomModel]: the name handed to [onChange]; [None] when the
    trimmed name is empty and nothing happens. *)
Definition handleCustomModel (customModelName : jsstring) : option jsstring :=
  if App.blank (trim customModelName) then None
  else Some (trim customModelName).

End ModelSelector.

(** * Properties *)

Import Stream.

(** ** Strings and line framing *)

Section Framing.

Lemma jsstring_eqb_eq a b : JsString.eqb a b = true <-> a = b.
Proof.
  revert b. induction a as [|x a IH]; intros [|y b]; simpl;
    try (split; [discriminate | congruence]); [tauto|].
  rewrite andb_true_iff, N.eqb_eq, IH. split.
  - intros [-> ->]. reflexivity.
  - intros E. inversion E. auto.
Qed.

Lemma jsstring_eqb_refl a : JsString.eqb a a = true.
Proof. apply jsstring_eqb_eq. reflexivity. Qed.

Lemma split_nl_nonempty s : split_nl s <> [].
Proof.
  destruct s as [|c r]; simpl; [discriminate|].
  destruct (c =? 10); [discriminate|].
  destruct (split_nl r); discriminate.
Qed.

Lemma removelast_cons {A} (x : A) l : l <> [] -> removelast (x :: l) = x :: removelast l.
Proof. destruct l; [congruence | reflexivity]. Qed.

Lemma last_cons {A} (x : A) l d : l <> [] -> last (x :: l) d = last l d.
Proof. destruct l; [congruence | reflexivity]. Qed.

(** Splitting an appended text: the closed lines of the first part, then
    the split of its open last piece followed by the second part. *)
Lemma split_nl_app x y :
  split_nl (x ++ y)
  = removelast (split_nl x) ++ split_nl (pop_or_empty (split_nl x) ++ y).
Proof.
  unfold pop_or_empty.
  induction x as [|c r IH]; simpl; [reflexivity|].
  destruct (c =? 10) eqn:Hc.
  - rewrite IH.
    rewrite removelast_cons, last_cons by apply split_nl_nonempty.
    reflexivity.
  - rewrite IH. clear IH.
    destruct (split_nl r) as [|h t] eqn:Hr; [now apply split_nl_nonempty in Hr|].
    destruct t as [|h2 t].
    + simpl. rewrite Hc. reflexivity.
    + change (removelast (h :: h2 :: t)) with (h :: removelast (h2 :: t)).
      change (removelast ((c :: h) :: h2 :: t)) with ((c :: h) :: removelast (h2 :: t)).
      change (last ((c :: h) :: h2 :: t) []) with (last (h2 :: t) []).
      change (last (h :: h2 :: t) []) with (last (h2 :: t) []).
      reflexivity.
Qed.

Lemma removelast_app_nonempty {A} (l l' : list A) :
  l' <> [] -> removelast (l ++ l') = l ++ removelast l'.
Proof. intros. apply removelast_app. assumption. Qed.

Lemma last_app_nonempty {A} (l l' : list A) d :
  l' <> [] -> last (l ++ l') d = last l' d.
Proof.
  intros Hl'. induction l as [|a l IH]; [reflexivity|].
  simpl app. rewrite last_cons; [exact IH|].
  destruct l; simpl; [assumption | discriminate].
Qed.

Lemma complete_lines_app x y :
  complete_lines (x ++ y)
  = complete_lines x ++ complete_lines (pop_or_empty (split_nl x) ++ y).
Proof.
  unfold complete_lines. rewrite split_nl_app.
  apply removelast_app_nonempty, split_nl_nonempty.
Qed.

Lemma pop_split_nl_app x y :
  pop_or_empty (split_nl (x ++ y))
  = pop_or_empty (split_nl (pop_or_empty (split_nl x) ++ y)).
Proof.
  unfold pop_or_empty at 1 2. rewrite split_nl_app.
  apply last_app_nonempty, split_nl_nonempty.
Qed.

(** The piece kept in the buffer holds no line feed. *)
Lemma split_nl_pop x :
  split_nl (pop_or_empty (split_nl x)) = [pop_or_empty (split_nl x)].
Proof.
  unfold pop_or_empty.
  induction x as [|c r IH]; simpl; [reflexivity|].
  destruct (c =? 10) eqn:Hc.
  - rewrite last_cons by apply split_nl_nonempty. exact IH.
  - destruct (split_nl r) as [|h t] eqn:Hr; [now apply split_nl_nonempty in Hr|].
    destruct t as [|h2 t].
    + simpl in *. rewrite Hc, IH. reflexivity.
    + change (last ((c :: h) :: h2 :: t) []) with (last (h2 :: t) []).
      exact IH.
Qed.

(** A line that starts with the prefix is not blank. *)
Lemma trim_start_snoc l c :
  is_js_space c = false -> trim_start (l ++ [c]) <> [].
Proof.
  intros Hc. induction l as [|a l IH]; simpl.
  - rewrite Hc. discriminate.
  - destruct (is_js_space a); [exact IH | discriminate].
Qed.

Lemma startsWith_data_not_blank line :
  startsWith line (lit "data: ") = true -> JsString.eqb (trim line) [] = false.
Proof.
  intros H. destruct line as [|c rest]; [discriminate|].
  simpl in H. apply andb_prop in H. destruct H as [Hc _].
  apply N.eqb_eq in Hc. subst c.
  unfold trim. simpl trim_start.
  destruct (JsString.eqb _ _) eqn:E; [|reflexivity].
  apply jsstring_eqb_eq in E.
  apply (f_equal (@rev _)) in E. rewrite rev_involutive in E. simpl in E.
  now apply trim_start_snoc in E.
Qed.

End Framing.

(** ** The line loop and the read loop *)

Section Loops.

Variable h : handlers.

Lemma process_lines_app s l1 l2 :
  process_lines h s (l1 ++ l2)
  = let '(ev, s1, f) := process_lines h s l1 in
    match f with
    | Return => (ev, s1, Return)
    | Continue =>
        let '(ev2, s2, f2) := process_lines h s1 l2 in (ev ++ ev2, s2, f2)
    end.
Proof.
  revert s. induction l1 as [|line l1 IH]; intros s; simpl.
  - destruct (process_lines h s l2) as [[ev2 s2] f2]. reflexivity.
  - destruct (process_line h s line) as [[ev s1] f].
    destruct f; [|reflexivity].
    rewrite IH.
    destruct (process_lines h s1 l1) as [[ev1 s1'] f1].
    destruct f1; [|reflexivity].
    destruct (process_lines h s1' l2) as [[ev2 s2] f2].
    rewrite app_assoc. reflexivity.
Qed.

Lemma decode_app d a b :
  Utf8.decode d (a ++ b)
  = let (t1, d1) := Utf8.decode d a in
    let (t2, d2) := Utf8.decode d1 b in (t1 ++ t2, d2).
Proof.
  revert d. induction a as [|x a IH]; intros d; simpl.
  - destruct (Utf8.decode d b). reflexivity.
  - destruct (Utf8.byte_step d x) as [s1 d1].
    rewrite IH.
    destruct (Utf8.decode d1 a) as [t1 d1'].
    destruct (Utf8.decode d1' b) as [t2 d2].
    rewrite app_assoc. reflexivity.
Qed.

(** *** Callbacks that leave the cancel handle alone *)

Hypothesis h_never_cancels : never_cancels h.

Lemma callback_keeps_aborted s c next ev s' f :
  callback h s c next = (ev, s', f) ->
  aborted s' = aborted s /\ ~ In CancelCalled ev.
Proof.
  unfold callback, cancel_events, after_call.
  rewrite (h_never_cancels (hist s) c).
  destruct (throws _); intros E; inversion E; subst; simpl;
    rewrite orb_false_r; split; auto; intros [F|F]; try discriminate;
    try destruct F as [F|F]; try discriminate; auto.
Qed.

Lemma process_line_keeps_aborted s line ev s' f :
  process_line h s line = (ev, s', f) ->
  aborted s' = aborted s /\ ~ In CancelCalled ev.
Proof.
  unfold process_line, dispatch, caught.
  assert (Hskip : forall (l : list event), l = [] \/ l = [ConsoleError parse_label] ->
                   ~ In CancelCalled l).
  { intros l [->| ->]; simpl; intuition discriminate. }
  repeat match goal with
  | |- context [if ?b then _ else _] => destruct b
  | |- context [match ?e with Some _ => _ | None => _ end] => destruct e
  end;
  try (intros E; inversion E; subst; split; [reflexivity | apply Hskip; auto]);
  apply callback_keeps_aborted.
Qed.

Lemma process_lines_keep_aborted lines s ev s' f :
  process_lines h s lines = (ev, s', f) ->
  aborted s' = aborted s /\ ~ In CancelCalled ev.
Proof.
  revert s ev s' f. induction lines as [|line lines IH]; intros s ev s' f; simpl.
  - intros E; inversion E; subst. split; auto.
  - destruct (process_line h s line) as [[ev1 s1] f1] eqn:E1.
    apply process_line_keeps_aborted in E1. destruct E1 as [Ha Hn].
    destruct f1.
    + destruct (process_lines h s1 lines) as [[ev2 s2] f2] eqn:E2.
      apply IH in E2. destruct E2 as [Ha2 Hn2].
      intros E; inversion E; subst. split; [congruence|].
      rewrite in_app_iff. tauto.
    + intros E; inversion E; subst. split; assumption.
Qed.

(** Two chunks in a row are read as their concatenation is. *)
Lemma read_loop_merge d buffer s a b rest fin :
  read_loop h d buffer s (Chunk a :: Chunk b :: rest) fin
  = read_loop h d buffer s (Chunk (a ++ b) :: rest) fin.
Proof.
  cbn [read_loop]. destruct (aborted s) eqn:Hs; [reflexivity|].
  rewrite decode_app.
  destruct (Utf8.decode d a) as [t1 d1].
  destruct (Utf8.decode d1 b) as [t2 d2].
  rewrite app_assoc.
  rewrite (pop_split_nl_app (buffer ++ t1) t2).
  change (removelast (split_nl ((buffer ++ t1) ++ t2)))
    with (complete_lines ((buffer ++ t1) ++ t2)).
  rewrite complete_lines_app. unfold complete_lines.
  rewrite process_lines_app.
  destruct (process_lines h s (removelast (split_nl (buffer ++ t1))))
    as [[ev1 s1] f1] eqn:E1.
  destruct f1; [|reflexivity].
  apply process_lines_keep_aborted in E1. destruct E1 as [Ha _].
  rewrite Ha, Hs.
  destruct (process_lines h s1 _) as [[ev2 s2] f2].
  destruct f2; [|reflexivity].
  destruct (read_loop h d2 _ s2 rest fin) as [[ev3 s3] x].
  rewrite app_assoc. reflexivity.
Qed.

(** An empty chunk changes nothing when the buffer holds no line feed. *)
Lemma read_loop_empty_chunk d buffer s rest fin :
  split_nl buffer = [buffer] ->
  read_loop h d buffer s (Chunk [] :: rest) fin
  = read_loop h d buffer s rest fin.
Proof.
  intros Hb. cbn [read_loop Utf8.decode].
  rewrite app_nil_r, Hb. cbn [removelast process_lines pop_or_empty last].
  destruct (aborted s) eqn:Hs.
  - destruct rest as [|[v|] rest]; cbn [read_loop]; rewrite Hs; reflexivity.
  - destruct (read_loop h d buffer s rest fin) as [[ev x] s']. reflexivity.
Qed.

(** What follows a chunk only matters through the state the chunk leaves. *)
Lemma read_loop_chunk_ext d buffer s v items1 items2 fin :
  (forall d' s', aborted s' = aborted s ->
     read_loop h d' (pop_or_empty (split_nl (buffer ++ fst (Utf8.decode d v))))
               s' items1 fin
     = read_loop h d' (pop_or_empty (split_nl (buffer ++ fst (Utf8.decode d v))))
                 s' items2 fin) ->
  read_loop h d buffer s (Chunk v :: items1) fin
  = read_loop h d buffer s (Chunk v :: items2) fin.
Proof.
  intros H. cbn [read_loop]. destruct (aborted s) eqn:Hs; [reflexivity|].
  destruct (Utf8.decode d v) as [t d1]. simpl fst in H.
  destruct (process_lines h s _) as [[ev1 s1] f1] eqn:E1.
  destruct f1; [|reflexivity].
  apply process_lines_keep_aborted in E1. destruct E1 as [Ha _].
  rewrite H by congruence. reflexivity.
Qed.

Lemma read_loop_concat chunks : forall d buffer s rest fin,
  split_nl buffer = [buffer] ->
  read_loop h d buffer s (map Chunk chunks ++ rest) fin
  = read_loop h d buffer s (Chunk (List.concat chunks) :: rest) fin.
Proof.
  induction chunks as [|c chunks IH]; intros d buffer s rest fin Hb.
  - simpl. symmetry. apply read_loop_empty_chunk. assumption.
  - simpl map. simpl List.concat. simpl app.
    rewrite <- read_loop_merge.
    apply read_loop_chunk_ext. intros d' s' _.
    apply IH. apply split_nl_pop.
Qed.

End Loops.

(** ** Which callbacks a run can invoke *)

Section Calls.

Variable h : handlers.

Lemma calls_app a b : calls (a ++ b) = calls a ++ calls b.
Proof.
  induction a as [|e a IH]; [reflexivity|].
  destruct e; simpl; rewrite IH; reflexivity.
Qed.

Lemma calls_cancel_events r : calls (cancel_events r) = [].
Proof. unfold cancel_events. destruct (cancels r); reflexivity. Qed.

(** A callback invoked from the line loop is the only callback of its
    line, whatever it does. *)
Lemma callback_calls s c next :
  calls (fst (fst (callback h s c next))) = [c].
Proof.
  unfold callback. destruct (throws _); simpl.
  - rewrite calls_app, calls_cancel_events. reflexivity.
  - rewrite calls_cancel_events. reflexivity.
Qed.

Lemma callback_flow s c next :
  snd (callback h s c next) = if throws (h (hist s) c) then Continue else next.
Proof. unfold callback. destruct (throws _); reflexivity. Qed.

Lemma process_line_nonterminal s line :
  terminal_frame line = false ->
  snd (process_line h s line) = Continue
  /\ progress_only (calls (fst (fst (process_line h s line)))).
Proof.
  unfold terminal_frame, process_line, dispatch, caught, progress_only.
  destruct (JsString.eqb (trim line) []); [intros _; simpl; auto|].
  destruct (startsWith line (lit "data: ")); [|intros _; simpl; auto].
  destruct (JSON_parse (slice 6 line)) as [data|]; [|intros _; simpl; auto].
  destruct (get data (lit "type")) as [t|]; [|intros _; simpl; auto].
  simpl andb. intros Ht. apply orb_false_elim in Ht. destruct Ht as [Hc He].
  rewrite Hc, He.
  destruct (is_string t (lit "progress")); [|simpl; auto].
  rewrite callback_flow, callback_calls. split.
  - destruct (throws _); reflexivity.
  - repeat constructor.
Qed.

Lemma process_lines_nonterminal lines : forall s,
  Forall (fun l => terminal_frame l = false) lines ->
  snd (process_lines h s lines) = Continue
  /\ progress_only (calls (fst (fst (process_lines h s lines)))).
Proof.
  induction lines as [|line lines IH]; intros s Hl; simpl.
  - split; [reflexivity | constructor].
  - inversion Hl as [|? ? Hline Hrest]; subst.
    destruct (process_line_nonterminal s line Hline) as [Hf Hp].
    destruct (process_line h s line) as [[ev s1] f]. simpl in Hf, Hp. subst f.
    destruct (IH s1 Hrest) as [Hf2 Hp2].
    destruct (process_lines h s1 lines) as [[ev2 s2] f2]. simpl in *.
    split; [assumption|].
    rewrite calls_app. apply Forall_app. split; assumption.
Qed.

(** While no closed line carries a terminal frame, the loop invokes
    [onProgress] only and is left at the end of the body or by the
    AbortError of a cancellation, never by [return]. *)
Lemma read_loop_nonterminal items fin : forall d buffer s,
  Forall (fun l => terminal_frame l = false)
         (complete_lines (buffer ++ received d items)) ->
  let '(ev, s', x) := read_loop h d buffer s items fin in
  progress_only (calls ev)
  /\ x = (if aborted s' then Threw abort_error else end_exit fin).
Proof.
  induction items as [|[v|] items IH]; intros d buffer s Hl; cbn [read_loop].
  - destruct (aborted s) eqn:Hs.
    + rewrite Hs. split; [constructor | reflexivity].
    + destruct fin; rewrite Hs; (split; [constructor | reflexivity]).
  - destruct (aborted s) eqn:Hs; [rewrite Hs; split; [constructor | reflexivity]|].
    cbn [received] in Hl.
    destruct (Utf8.decode d v) as [t d1].
    rewrite app_assoc, complete_lines_app in Hl.
    apply Forall_app in Hl. destruct Hl as [Hl1 Hl2].
    destruct (process_lines_nonterminal _ s Hl1) as [Hf Hp].
    unfold complete_lines in Hf, Hp.
    destruct (process_lines h s _) as [[ev1 s1] f1]. simpl in Hf, Hp. subst f1.
    specialize (IH d1 _ s1 Hl2).
    destruct (read_loop h d1 _ s1 items fin) as [[ev2 s2] x].
    destruct IH as [Hp2 Hx]. split; [|assumption].
    rewrite calls_app. apply Forall_app. split; assumption.
  - destruct (aborted s) eqn:Hs; [rewrite Hs; split; [constructor | reflexivity]|].
    cbn [received] in Hl.
    specialize (IH d buffer {| hist := hist s; aborted := true |} Hl).
    destruct (read_loop h d buffer _ items fin) as [[ev2 s2] x].
    destruct IH as [Hp2 Hx]. split; assumption.
Qed.

(** Without any cancellation the controller is never aborted. *)
Lemma read_loop_keeps_aborted items fin : forall d buffer s ev s' x,
  never_cancels h ->
  forallb is_chunk items = true ->
  read_loop h d buffer s items fin = (ev, s', x) ->
  aborted s' = aborted s /\ ~ In CancelCalled ev.
Proof.
  induction items as [|[v|] items IH]; intros d buffer s ev s' x Hh Hc;
    cbn [read_loop]; try discriminate.
  - assert (Hdone : forall y, (@nil event, s, y) = (ev, s', x) ->
                            aborted s' = aborted s /\ ~ In CancelCalled ev)
      by (intros y E; inversion E; subst; auto).
    destruct (aborted s); [apply Hdone|].
    destruct fin; apply Hdone.
  - destruct (aborted s) eqn:Hs; [intros E; inversion E; subst; auto|].
    destruct (Utf8.decode d v) as [t d1].
    destruct (process_lines h s _) as [[ev1 s1] f1] eqn:E1.
    apply (process_lines_keep_aborted h Hh) in E1. destruct E1 as [Ha Hn].
    destruct f1.
    + destruct (read_loop h d1 _ s1 items fin) as [[ev2 s2] x2] eqn:E2.
      apply IH in E2; [|assumption|exact Hc]. destruct E2 as [Ha2 Hn2].
      intros E; inversion E; subst. split; [congruence|].
      rewrite in_app_iff. tauto.
    + intros E; inversion E; subst. split; [congruence | assumption].
Qed.

End Calls.

(** ** The decoder gives back what the encoder wrote *)

Section Decoding.

Import Utf8.

#[local] Ltac Zify.zify_post_hook ::= Z.to_euclidean_division_equations.

Lemma to_N_to_byte n : n < 256 -> Byte.to_N (to_byte n) = n.
Proof.
  intros Hn. unfold to_byte.
  destruct (Byte.of_N n) as [b|] eqn:E.
  - apply Byte.to_of_N. assumption.
  - apply Byte.of_N_None_iff in E. lia.
Qed.

Lemma land_shiftl_low c x : x < 64 -> N.land (N.shiftl c 6) x = 0.
Proof.
  intros Hx. apply N.bits_inj_0. intros i. rewrite N.land_spec.
  destruct (N.lt_ge_cases i 6) as [Hi|Hi].
  - rewrite N.shiftl_spec_low by assumption. reflexivity.
  - destruct (N.eq_dec x 0) as [->|Hx0].
    + rewrite N.bits_0. apply andb_false_r.
    + rewrite (N.bits_above_log2 x i); [apply andb_false_r|].
      apply N.lt_le_trans with 6; [|assumption].
      apply N.log2_lt_pow2; [lia|]. exact Hx.
Qed.

Lemma lor_shiftl_6 c x : x < 64 -> N.lor (N.shiftl c 6) x = c * 64 + x.
Proof.
  intros Hx. rewrite <- N.lxor_lor, <- N.add_nocarry_lxor by (apply land_shiftl_low; assumption).
  rewrite N.shiftl_mul_pow2. reflexivity.
Qed.

Lemma land_low n k x : x < 2 ^ n -> N.land (k * 2 ^ n + x) (N.ones n) = x.
Proof.
  intros Hx. rewrite N.land_ones.
  rewrite N.add_comm, N.Div0.mod_add. apply N.mod_small. assumption.
Qed.

Lemma land_31 q : q < 32 -> N.land (192 + q) 31 = q.
Proof. intros. apply (land_low 5 6 q). assumption. Qed.
Lemma land_15 q : q < 16 -> N.land (224 + q) 15 = q.
Proof. intros. apply (land_low 4 14 q). assumption. Qed.
Lemma land_7 q : q < 8 -> N.land (240 + q) 7 = q.
Proof. intros. apply (land_low 3 30 q). assumption. Qed.
Lemma land_63 q : q < 64 -> N.land (128 + q) 63 = q.
Proof. intros. apply (land_low 6 2 q). assumption. Qed.

Ltac tests :=
  repeat match goal with
  | |- context [?a <=? ?b] => destruct (N.leb_spec a b); try lia
  | |- context [?a <? ?b] => destruct (N.ltb_spec a b); try lia
  | |- context [?a =? ?b] => destruct (N.eqb_spec a b); try lia
  end.

Lemma step_ascii b : b < 128 -> byte_step idle (to_byte b) = ([b], idle).
Proof.
  intros Hb. unfold byte_step. rewrite to_N_to_byte by lia.
  unfold handler, lead, idle, set_bom_seen, fresh. cbn [bytes_needed N.eqb bom_seen].
  tests. cbn [strip_bom bom_seen flat_map app]. unfold utf16. tests. reflexivity.
Qed.

Lemma step_lead2 q : 2 <= q < 32 ->
  byte_step idle (to_byte (192 + q)) = ([], open_sequence q 0 1 128 191).
Proof.
  intros Hq. unfold byte_step. rewrite to_N_to_byte by lia.
  unfold handler, lead, idle, set_bom_seen, fresh. cbn [bytes_needed N.eqb bom_seen].
  tests. cbn [andb strip_bom flat_map]. rewrite land_31 by lia. reflexivity.
Qed.

Lemma step_lead3 q : q < 16 ->
  byte_step idle (to_byte (224 + q))
  = ([], open_sequence q 0 2 (if q =? 0 then 160 else 128) (if q =? 13 then 159 else 191)).
Proof.
  intros Hq. unfold byte_step. rewrite to_N_to_byte by lia.
  unfold handler, lead, idle, set_bom_seen, fresh. cbn [bytes_needed N.eqb bom_seen].
  tests; cbn [andb strip_bom flat_map]; rewrite land_15 by lia; reflexivity.
Qed.

Lemma step_lead4 q : q < 5 ->
  byte_step idle (to_byte (240 + q))
  = ([], open_sequence q 0 3 (if q =? 0 then 144 else 128) (if q =? 4 then 143 else 191)).
Proof.
  intros Hq. unfold byte_step. rewrite to_N_to_byte by lia.
  unfold handler, lead, idle, set_bom_seen, fresh. cbn [bytes_needed N.eqb bom_seen].
  tests; cbn [andb strip_bom flat_map]; rewrite land_7 by lia; reflexivity.
Qed.

Lemma step_middle c seen needed lo hi r :
  0 < needed -> seen + 1 <> needed -> r < 64 -> lo <= 128 + r <= hi ->
  byte_step (open_sequence c seen needed lo hi) (to_byte (128 + r))
  = ([], open_sequence (c * 64 + r) (seen + 1) needed 128 191).
Proof.
  intros Hn Hs Hr Hb. unfold byte_step. rewrite to_N_to_byte by lia.
  unfold handler, open_sequence. cbn [bytes_needed lower_boundary upper_boundary bytes_seen code_point bom_seen].
  tests. cbn [orb strip_bom flat_map].
  rewrite land_63, lor_shiftl_6 by lia. reflexivity.
Qed.

Lemma step_last c seen needed lo hi r :
  0 < needed -> seen + 1 = needed -> r < 64 -> lo <= 128 + r <= hi ->
  byte_step (open_sequence c seen needed lo hi) (to_byte (128 + r))
  = (utf16 (c * 64 + r), idle).
Proof.
  intros Hn Hs Hr Hb. unfold byte_step. rewrite to_N_to_byte by lia.
  unfold handler, open_sequence. cbn [bytes_needed lower_boundary upper_boundary bytes_seen code_point bom_seen].
  tests. cbn [orb reset strip_bom bom_seen flat_map].
  rewrite land_63, lor_shiftl_6 by lia. rewrite ?app_nil_r. reflexivity.
Qed.

(** The decoder undoes the encoder on every scalar value. *)
Lemma decode_encode cp :
  is_scalar cp = true -> decode idle (encode cp) = (utf16 cp, idle).
Proof.
  unfold is_scalar, encode. intros Hs.
  assert (Hcp : cp < 55296 \/ 57344 <= cp < 1114112).
  { apply orb_prop in Hs. destruct Hs as [H|H].
    - left. apply N.ltb_lt. assumption.
    - right. apply andb_prop in H. destruct H as [H1 H2].
      apply N.leb_le in H1. apply N.ltb_lt in H2. lia. }
  clear Hs.
  destruct (N.ltb_spec cp 128); [|destruct (N.ltb_spec cp 2048); [|destruct (N.ltb_spec cp 65536)]];
    cbn [map decode].
  - rewrite step_ascii by assumption. unfold utf16. tests. reflexivity.
  - rewrite step_lead2 by lia.
    rewrite (step_last (cp / 64) 0 1 128 191 (cp mod 64)) by lia.
    replace (cp / 64 * 64 + cp mod 64) with cp by lia.
    rewrite app_nil_r. reflexivity.
  - rewrite step_lead3 by lia.
    rewrite (step_middle (cp / 4096) 0 2 _ _ ((cp / 64) mod 64)) by (tests; lia).
    rewrite (step_last _ 1 2 128 191 (cp mod 64)) by lia.
    replace ((cp / 4096 * 64 + (cp / 64) mod 64) * 64 + cp mod 64) with cp by lia.
    rewrite app_nil_r. reflexivity.
  - rewrite step_lead4 by lia.
    rewrite (step_middle (cp / 262144) 0 3 _ _ ((cp / 4096) mod 64)) by (tests; lia).
    rewrite (step_middle _ 1 3 128 191 ((cp / 64) mod 64)) by lia.
    rewrite (step_last _ 2 3 128 191 (cp mod 64)) by lia.
    replace (((cp / 262144 * 64 + (cp / 4096) mod 64) * 64 + (cp / 64) mod 64) * 64 + cp mod 64)
      with cp by lia.
    rewrite app_nil_r. reflexivity.
Qed.

(** The bytes of a character cut in two anywhere: the two calls together
    yield the character once, and the decoder is between characters again. *)
Lemma decode_split_character cp a b :
  is_scalar cp = true ->
  encode cp = a ++ b ->
  fst (decode idle a) ++ fst (decode (snd (decode idle a)) b) = utf16 cp
  /\ snd (decode (snd (decode idle a)) b) = idle.
Proof.
  intros Hs E. pose proof (decode_encode cp Hs) as H.
  rewrite E, decode_app in H.
  destruct (decode idle a) as [t1 d1]. cbn [fst snd].
  destruct (decode d1 b) as [t2 d2]. cbn [fst snd].
  inversion H. auto.
Qed.

(** *** The first character of the stream *)

Lemma first_ascii b : b < 128 -> byte_step fresh (to_byte b) = ([b], idle).
Proof.
  intros Hb. unfold byte_step. rewrite to_N_to_byte by lia.
  unfold handler, lead, idle, set_bom_seen, fresh. cbn [bytes_needed N.eqb bom_seen].
  tests. cbn [strip_bom bom_seen set_bom_seen flat_map app]. tests.
  cbn [flat_map app]. unfold utf16. tests. reflexivity.
Qed.

Lemma first_lead2 q : 2 <= q < 32 ->
  byte_step fresh (to_byte (192 + q)) = ([], first_sequence q 0 1 128 191).
Proof.
  intros Hq. unfold byte_step. rewrite to_N_to_byte by lia.
  unfold handler, lead, fresh. cbn [bytes_needed N.eqb bom_seen].
  tests. cbn [andb strip_bom flat_map]. rewrite land_31 by lia. reflexivity.
Qed.

Lemma first_lead3 q : q < 16 ->
  byte_step fresh (to_byte (224 + q))
  = ([], first_sequence q 0 2 (if q =? 0 then 160 else 128) (if q =? 13 then 159 else 191)).
Proof.
  intros Hq. unfold byte_step. rewrite to_N_to_byte by lia.
  unfold handler, lead, fresh. cbn [bytes_needed N.eqb bom_seen].
  tests; cbn [andb strip_bom flat_map]; rewrite land_15 by lia; reflexivity.
Qed.

Lemma first_lead4 q : q < 5 ->
  byte_step fresh (to_byte (240 + q))
  = ([], first_sequence q 0 3 (if q =? 0 then 144 else 128) (if q =? 4 then 143 else 191)).
Proof.
  intros Hq. unfold byte_step. rewrite to_N_to_byte by lia.
  unfold handler, lead, fresh. cbn [bytes_needed N.eqb bom_seen].
  tests; cbn [andb strip_bom flat_map]; rewrite land_7 by lia; reflexivity.
Qed.

Lemma first_middle c seen needed lo hi r :
  0 < needed -> seen + 1 <> needed -> r < 64 -> lo <= 128 + r <= hi ->
  byte_step (first_sequence c seen needed lo hi) (to_byte (128 + r))
  = ([], first_sequence (c * 64 + r) (seen + 1) needed 128 191).
Proof.
  intros Hn Hs Hr Hb. unfold byte_step. rewrite to_N_to_byte by lia.
  unfold handler, first_sequence. cbn [bytes_needed lower_boundary upper_boundary bytes_seen code_point bom_seen].
  tests. cbn [orb strip_bom flat_map].
  rewrite land_63, lor_shiftl_6 by lia. reflexivity.
Qed.

Lemma first_last c seen needed lo hi r :
  0 < needed -> seen + 1 = needed -> r < 64 -> lo <= 128 + r <= hi ->
  byte_step (first_sequence c seen needed lo hi) (to_byte (128 + r))
  = (first_utf16 (c * 64 + r), idle).
Proof.
  intros Hn Hs Hr Hb. unfold byte_step. rewrite to_N_to_byte by lia.
  unfold handler, first_sequence. cbn [bytes_needed lower_boundary upper_boundary bytes_seen code_point bom_seen].
  tests. cbn [orb reset strip_bom bom_seen set_bom_seen].
  rewrite land_63, lor_shiftl_6 by lia. unfold first_utf16.
  destruct (c * 64 + r =? 65279); cbn [flat_map]; rewrite ?app_nil_r; reflexivity.
Qed.

(** At the start of the stream the decoder undoes the encoder as well,
    but for the byte order mark, which it drops. *)
Lemma decode_encode_first cp :
  is_scalar cp = true -> decode fresh (encode cp) = (first_utf16 cp, idle).
Proof.
  unfold is_scalar, encode. intros Hs.
  assert (Hcp : cp < 55296 \/ 57344 <= cp < 1114112).
  { apply orb_prop in Hs. destruct Hs as [H|H].
    - left. apply N.ltb_lt. assumption.
    - right. apply andb_prop in H. destruct H as [H1 H2].
      apply N.leb_le in H1. apply N.ltb_lt in H2. lia. }
  clear Hs.
  destruct (N.ltb_spec cp 128); [|destruct (N.ltb_spec cp 2048); [|destruct (N.ltb_spec cp 65536)]];
    cbn [map decode].
  - rewrite first_ascii by assumption. unfold first_utf16, utf16. tests. reflexivity.
  - rewrite first_lead2 by lia.
    rewrite (first_last (cp / 64) 0 1 128 191 (cp mod 64)) by lia.
    replace (cp / 64 * 64 + cp mod 64) with cp by lia.
    rewrite app_nil_r. reflexivity.
  - rewrite first_lead3 by lia.
    rewrite (first_middle (cp / 4096) 0 2 _ _ ((cp / 64) mod 64)) by (tests; lia).
    rewrite (first_last _ 1 2 128 191 (cp mod 64)) by lia.
    replace ((cp / 4096 * 64 + (cp / 64) mod 64) * 64 + cp mod 64) with cp by lia.
    rewrite app_nil_r. reflexivity.
  - rewrite first_lead4 by lia.
    rewrite (first_middle (cp / 262144) 0 3 _ _ ((cp / 4096) mod 64)) by (tests; lia).
    rewrite (first_middle _ 1 3 128 191 ((cp / 64) mod 64)) by lia.
    rewrite (first_last _ 2 3 128 191 (cp mod 64)) by lia.
    replace (((cp / 262144 * 64 + (cp / 4096) mod 64) * 64 + (cp / 64) mod 64) * 64 + cp mod 64)
      with cp by lia.
    rewrite app_nil_r. reflexivity.
Qed.

Lemma decode_split_first_character cp a b :
  is_scalar cp = true ->
  encode cp = a ++ b ->
  fst (decode fresh a) ++ fst (decode (snd (decode fresh a)) b) = first_utf16 cp
  /\ snd (decode (snd (decode fresh a)) b) = idle.
Proof.
  intros Hs E. pose proof (decode_encode_first cp Hs) as H.
  rewrite E, decode_app in H.
  destruct (decode fresh a) as [t1 d1]. cbn [fst snd].
  destruct (decode d1 b) as [t2 d2]. cbn [fst snd].
  inversion H. auto.
Qed.

End Decoding.

(** ** Framing does not depend on chunk boundaries *)

Section ChunkBoundaries.

(** The bytes [E2 82 AC] of the euro sign, delivered as [E2 82] and then
    [AC]: the first call yields nothing and the second the one code unit
    U+20AC. *)
Example euro_sign_split_across_chunks :
  let (t1, d1) := Utf8.decode Utf8.fresh [xe2; x82] in
  let (t2, _) := Utf8.decode d1 [xac] in
  t1 = [] /\ t2 = [8364]
  /\ fst (Utf8.decode Utf8.fresh [xe2; x82; xac]) = [8364].
Proof. vm_compute. repeat split. Qed.

(** C7: for every byte content and every two ways of cutting it into
    chunks, the run is the same: the same callbacks with the same arguments
    in the same order, the same log lines and the same end; and the bytes
    of any character, cut in two at any place, decode over the two calls to
    that character, once, in the middle of the stream as at its start
    (where a byte order mark is dropped, as it is when it comes whole). The
    callbacks may throw; they do not invoke the cancel handle, whose effect
    is tied to the chunk in which it happens. *)
Theorem chunk_boundary_independence h chunks1 chunks2 fin :
  never_cancels h ->
  List.concat chunks1 = List.concat chunks2 ->
  runStream h (streaming (map Chunk chunks1) fin)
  = runStream h (streaming (map Chunk chunks2) fin)
  /\ (forall cp a b,
        Utf8.is_scalar cp = true ->
        Utf8.encode cp = a ++ b ->
        fst (Utf8.decode Utf8.idle a)
        ++ fst (Utf8.decode (snd (Utf8.decode Utf8.idle a)) b)
        = Utf8.utf16 cp
        /\ snd (Utf8.decode (snd (Utf8.decode Utf8.idle a)) b) = Utf8.idle)
  /\ (forall cp a b,
        Utf8.is_scalar cp = true ->
        Utf8.encode cp = a ++ b ->
        fst (Utf8.decode Utf8.fresh a)
        ++ fst (Utf8.decode (snd (Utf8.decode Utf8.fresh a)) b)
        = Utf8.first_utf16 cp
        /\ snd (Utf8.decode (snd (Utf8.decode Utf8.fresh a)) b) = Utf8.idle).
Proof.
  intros Hh Hc.
  split; [|split; [apply decode_split_character
                  | apply decode_split_first_character]].
  unfold runStream, streaming. simpl.
  rewrite <- (app_nil_r (map Chunk chunks1)), <- (app_nil_r (map Chunk chunks2)).
  rewrite !(read_loop_concat h Hh) by reflexivity.
  rewrite Hc. reflexivity.
Qed.

Lemma quiet_never_cancels : never_cancels quiet.
Proof. intros past c. reflexivity. Qed.

Lemma quiet_never_throws : never_throws quiet.
Proof. intros past c. reflexivity. Qed.

(** A progress frame whose payload holds a euro sign, cut inside the
    prefix and inside the euro sign, against the same bytes in one chunk. *)
Lemma chunk_boundary_independence_witness :
  runStream quiet
    (streaming
       (map Chunk [wire_bytes "da";
                   wire_bytes "ta: {'type':'progress','status':'" ++ [xe2; x82];
                   [xac] ++ wire_bytes "'}|"])
       Done)
  = runStream quiet
      (streaming
         (map Chunk [wire_bytes "data: {'type':'progress','status':'"
                     ++ [xe2; x82; xac] ++ wire_bytes "'}|"])
         Done)
  /\ (forall cp a b,
        Utf8.is_scalar cp = true ->
        Utf8.encode cp = a ++ b ->
        fst (Utf8.decode Utf8.idle a)
        ++ fst (Utf8.decode (snd (Utf8.decode Utf8.idle a)) b)
        = Utf8.utf16 cp
        /\ snd (Utf8.decode (snd (Utf8.decode Utf8.idle a)) b) = Utf8.idle)
  /\ (forall cp a b,
        Utf8.is_scalar cp = true ->
        Utf8.encode cp = a ++ b ->
        fst (Utf8.decode Utf8.fresh a)
        ++ fst (Utf8.decode (snd (Utf8.decode Utf8.fresh a)) b)
        = Utf8.first_utf16 cp
        /\ snd (Utf8.decode (snd (Utf8.decode Utf8.fresh a)) b) = Utf8.idle).
Proof.
  apply chunk_boundary_independence;
    [exact quiet_never_cancels | reflexivity].
Defined.

(** C7, as stated, fails: when a callback invokes the cancel handle, the
    place of the chunk boundary decides what is dispatched. The same bytes
    hold two progress frames; delivered as two chunks, the cancellation
    made by the first [onProgress] stops the run before the second chunk is
    read; delivered as one chunk, both frames are dispatched. *)
Lemma chunk_boundary_matters_when_a_callback_cancels :
  List.concat [wire_bytes "data: {'type':'progress','n':1}|";
               wire_bytes "data: {'type':'progress','n':2}|"]
  = List.concat [wire_bytes "data: {'type':'progress','n':1}|"
                 ++ wire_bytes "data: {'type':'progress','n':2}|"]
  /\ calls (fst (runStream cancelling
                   (streaming
                      (map Chunk [wire_bytes "data: {'type':'progress','n':1}|";
                                  wire_bytes "data: {'type':'progress','n':2}|"])
                      Done)))
     = [OnProgress (JObj [(lit "type", JStr (lit "progress"));
                          (lit "n", JNum (lit "1"))])]
  /\ calls (fst (runStream cancelling
                   (streaming
                      (map Chunk [wire_bytes "data: {'type':'progress','n':1}|"
                                  ++ wire_bytes "data: {'type':'progress','n':2}|"])
                      Done)))
     = [OnProgress (JObj [(lit "type", JStr (lit "progress"));
                          (lit "n", JNum (lit "1"))]);
        OnProgress (JObj [(lit "type", JStr (lit "progress"));
                          (lit "n", JNum (lit "2"))])].
Proof. split; [|split]; reflexivity. Qed.

(** What that run is: one [onProgress] whose [status] is the euro sign. *)
Example euro_progress_run :
  runStream quiet
    (streaming
       (map Chunk [wire_bytes "da";
                   wire_bytes "ta: {'type':'progress','status':'" ++ [xe2; x82];
                   [xac] ++ wire_bytes "'}|"])
       Done)
  = ([Call (OnProgress (JObj [(lit "type", JStr (lit "progress"));
                              (lit "status", JStr [8364])]))],
     Fulfilled).
Proof. reflexivity. Qed.

End ChunkBoundaries.

(** ** The end of the stream *)

Section StreamEnd.

Lemma catch_abort h s :
  catch h s abort_error = ([ConsoleLog cancelled_label], Fulfilled).
Proof. reflexivity. Qed.

(** C1, as the code has it: when the transport ends and no closed line of
    the stream carries a [complete] or [error] frame, neither [onError]
    nor [onComplete] is invoked: the only callbacks of the run are
    [onProgress] ones and the run ends normally. *)
Theorem stream_end_is_silent h items :
  Forall (fun l => terminal_frame l = false)
         (complete_lines (received Utf8.fresh items)) ->
  progress_only (calls (fst (runStream h (streaming items Done))))
  /\ snd (runStream h (streaming items Done)) = Fulfilled.
Proof.
  intros Hl. unfold runStream, streaming. simpl.
  pose proof (read_loop_nonterminal h items Done Utf8.fresh [] start Hl) as H.
  destruct (read_loop h Utf8.fresh [] start items Done) as [[ev s] x].
  destruct H as [Hp Hx]. subst x.
  destruct (aborted s); simpl.
  - rewrite calls_app. simpl. rewrite app_nil_r. auto.
  - auto.
Qed.

(** Two progress frames and an unfinished line, then the end. *)
Lemma stream_end_is_silent_witness :
  progress_only
    (calls (fst (runStream quiet
       (streaming [Chunk (wire_bytes "data: {'type':'progress'}|data: {'ty");
                   Chunk (wire_bytes "pe':'progress'}|data: {'type':'comp")]
                  Done))))
  /\ snd (runStream quiet
       (streaming [Chunk (wire_bytes "data: {'type':'progress'}|data: {'ty");
                   Chunk (wire_bytes "pe':'progress'}|data: {'type':'comp")]
                  Done)) = Fulfilled.
Proof.
  apply stream_end_is_silent. vm_compute. repeat constructor.
Defined.

(** C1, as stated, fails: a stream that closes with no frames invokes no
    callback at all, so [onError] is not invoked once. *)
Lemma stream_end_without_frames_no_onError :
  runStream quiet (streaming [] Done) = ([], Fulfilled)
  /\ ~ (exists m, calls (fst (runStream quiet (streaming [] Done))) = [OnError m]).
Proof.
  split; [reflexivity|]. intros [m H]. discriminate H.
Qed.

(** A frame that no line feed closes before the stream ends stays in the
    buffer and is never dispatched. *)
Example unterminated_frame_is_dropped :
  runStream quiet
    (streaming [Chunk (wire_bytes "data: {'type':'complete','result':1}")] Done)
  = ([], Fulfilled).
Proof. reflexivity. Qed.

End StreamEnd.

(** ** Cancellation *)

Section Cancellation.

Lemma split_at_cancel (A B : list event) :
  ~ In CancelCalled A -> calls B = [] ->
  silent_after_cancel (A ++ CancelCalled :: B).
Proof.
  intros HA HB before. revert A HA.
  induction before as [|e before IH]; intros A HA after E.
  - destruct A as [|a A]; simpl in E.
    + inversion E; subst. assumption.
    + inversion E; subst. exfalso. apply HA. left. reflexivity.
  - destruct A as [|a A]; simpl in E.
    + inversion E; subst.
      rewrite calls_app in HB. apply app_eq_nil in HB. simpl in HB. tauto.
    + injection E as _ E'. apply (IH A); [|exact E'].
      intros F. apply HA. right. assumption.
Qed.

Lemma no_cancel_silent (A : list event) :
  ~ In CancelCalled A -> silent_after_cancel A.
Proof.
  intros HA before after E. exfalso. apply HA. rewrite E.
  apply in_elt.
Qed.

Lemma read_loop_aborted h d buffer s items fin :
  aborted s = true ->
  read_loop h d buffer s items fin = ([], s, Threw abort_error).
Proof.
  intros Hs. destruct items as [|[v|] items]; cbn [read_loop]; rewrite Hs; reflexivity.
Qed.

(** With callbacks that leave the handle alone, the loop either sees no
    cancellation or stops right at the first one. *)
Lemma read_loop_cancel_shape h items fin : forall d buffer s,
  never_cancels h -> aborted s = false ->
  let '(ev, s', x) := read_loop h d buffer s items fin in
  ~ In CancelCalled ev
  \/ (exists A, ev = A ++ [CancelCalled] /\ ~ In CancelCalled A
                /\ x = Threw abort_error).
Proof.
  induction items as [|[v|] items IH]; intros d buffer s Hh Hs; cbn [read_loop];
    rewrite Hs.
  - destruct fin; left; intros [].
  - destruct (Utf8.decode d v) as [t d1].
    destruct (process_lines h s _) as [[ev1 s1] f1] eqn:E1.
    apply (process_lines_keep_aborted h Hh) in E1. destruct E1 as [Ha Hn].
    destruct f1; [|left; assumption].
    specialize (IH d1 (pop_or_empty (split_nl (buffer ++ t))) s1 Hh).
    destruct (read_loop h d1 _ s1 items fin) as [[ev2 s2] x].
    destruct IH as [Hn2|[A [-> [HA ->]]]]; [congruence| |].
    + left. rewrite in_app_iff. tauto.
    + right. exists (ev1 ++ A). rewrite app_assoc. repeat split; auto.
      rewrite in_app_iff. tauto.
  - rewrite read_loop_aborted by reflexivity.
    right. exists []. repeat split; auto.
Qed.

Lemma catch_no_cancel h s e :
  never_cancels h -> ~ In CancelCalled (fst (catch h s e)).
Proof.
  intros Hh. unfold catch, cancel_events.
  destruct (JsString.eqb _ _); simpl.
  - intros [F|[]]; discriminate.
  - rewrite Hh. simpl. intros [F|[F|[]]]; discriminate.
Qed.

(** C2, as the code has it: in a run whose callbacks do not themselves
    invoke the cancel handle (it is invoked while the client waits for the
    response or for the next chunk), no callback is invoked after the
    handle has been invoked, whatever data arrives afterwards. *)
Theorem no_callback_after_cancel h net :
  never_cancels h ->
  silent_after_cancel (fst (runStream h net)).
Proof.
  intros Hh. unfold runStream.
  destruct net as [first fetched]. cbn [cancel_first Stream.fetched].
  destruct first.
  - rewrite catch_abort.
    apply (split_at_cancel [] [ConsoleLog cancelled_label]); auto.
  - destruct fetched as [|e|ok status body].
    + apply no_cancel_silent. intros [].
    + apply no_cancel_silent, catch_no_cancel, Hh.
    + destruct ok; cbn [negb]; [|apply no_cancel_silent, catch_no_cancel, Hh].
      destruct body as [[items fin]|]; [|apply no_cancel_silent, catch_no_cancel, Hh].
      pose proof (read_loop_cancel_shape h items fin Utf8.fresh [] start Hh eq_refl) as H.
      destruct (read_loop h Utf8.fresh [] start items fin) as [[ev s] x].
      destruct H as [Hn|[A [-> [HA ->]]]].
      * apply no_cancel_silent.
        destruct x; simpl; try assumption.
        pose proof (catch_no_cancel h s e Hh) as Hc.
        destruct (catch h s e) as [ev2 p]. simpl in *.
        rewrite in_app_iff. tauto.
      * rewrite catch_abort. cbn [fst]. rewrite <- app_assoc.
        apply (split_at_cancel A [ConsoleLog cancelled_label]); auto.
Qed.

(** What is in flight when the handle is invoked never reaches the run,
    whatever the callbacks do. *)
Lemma cancel_discards_later_data h items later later' fin fin' : forall d buffer s,
  read_loop h d buffer s (items ++ CancelCall :: later) fin
  = read_loop h d buffer s (items ++ CancelCall :: later') fin'.
Proof.
  induction items as [|[v|] items IH]; intros d buffer s; cbn [app read_loop].
  - destruct (aborted s); [reflexivity|].
    rewrite !read_loop_aborted by reflexivity. reflexivity.
  - destruct (aborted s); [reflexivity|].
    destruct (Utf8.decode d v) as [t d1].
    destruct (process_lines h s _) as [[ev1 s1] f1].
    destruct f1; [|reflexivity].
    rewrite (IH d1 _ s1). reflexivity.
  - destruct (aborted s); [reflexivity|].
    rewrite (IH d buffer _). reflexivity.
Qed.

(** A progress frame arrives, the caller cancels, and a complete frame
    arrives afterwards: it is never delivered. *)
Lemma no_callback_after_cancel_witness :
  silent_after_cancel
    (fst (runStream quiet
       (streaming [Chunk (wire_bytes "data: {'type':'progress'}|");
                   CancelCall;
                   Chunk (wire_bytes "data: {'type':'complete','result':{}}|")]
                  Done))).
Proof.
  apply no_callback_after_cancel. exact quiet_never_cancels.
Defined.

(** C2, as stated, fails: [onProgress] invokes the cancel handle while two
    more lines of the chunk it came in are waiting, and both are still
    dispatched, the second one to [onComplete]. *)
Lemma callback_after_cancel_in_same_chunk :
  ~ silent_after_cancel
      (fst (runStream cancelling
         (streaming
            [Chunk (wire_bytes
               "data: {'type':'progress','n':1}|data: {'type':'progress','n':2}|data: {'type':'complete','result':3}|")]
            Pending))).
Proof.
  intros H.
  specialize (H [Call (OnProgress (JObj [(lit "type", JStr (lit "progress"));
                                          (lit "n", JNum (lit "1"))]))]
                [Call (OnProgress (JObj [(lit "type", JStr (lit "progress"));
                                          (lit "n", JNum (lit "2"))]));
                 CancelCalled;
                 Call (OnComplete (Val (JNum (lit "3"))));
                 CancelCalled]
                eq_refl).
  discriminate H.
Qed.

End Cancellation.

(** ** Terminal callbacks *)

Section TerminalCallbacks.

Variable h : handlers.
Hypothesis h_never_throws : never_throws h.

Lemma callback_stretch s c next :
  returns next = is_terminal c ->
  let '(ev, _, f) := callback h s c next in stretch ev (returns f).
Proof.
  intros Hn.
  pose proof (callback_calls h s c next) as Hc.
  pose proof (callback_flow h s c next) as Hf.
  rewrite h_never_throws in Hf.
  destruct (callback h s c next) as [[ev s'] f]. simpl in Hc, Hf. subst f.
  unfold stretch. rewrite Hc, Hn.
  destruct (is_terminal c) eqn:Ht.
  - exists [], c. repeat split; [constructor | assumption].
  - repeat constructor. assumption.
Qed.

Lemma process_line_stretch s line :
  let '(ev, _, f) := process_line h s line in stretch ev (returns f).
Proof.
  unfold process_line, dispatch, caught.
  repeat match goal with
  | |- context [if ?b then _ else _] => destruct b
  | |- context [match ?e with Some _ => _ | None => _ end] => destruct e
  end;
  try (simpl; constructor);
  apply callback_stretch; reflexivity.
Qed.

Lemma stretch_app ev1 ev2 r :
  stretch ev1 false -> stretch ev2 r -> stretch (ev1 ++ ev2) r.
Proof.
  unfold stretch. intros H1 H2. rewrite calls_app. destruct r.
  - destruct H2 as [ps [c [E [Hp Ht]]]].
    exists (calls ev1 ++ ps), c. rewrite E, app_assoc. repeat split; auto.
    apply Forall_app. split; assumption.
  - apply Forall_app. split; assumption.
Qed.

Lemma process_lines_stretch lines : forall s,
  let '(ev, _, f) := process_lines h s lines in stretch ev (returns f).
Proof.
  induction lines as [|line lines IH]; intros s; simpl.
  - constructor.
  - pose proof (process_line_stretch s line) as H1.
    destruct (process_line h s line) as [[ev1 s1] f1].
    destruct f1; [|assumption].
    specialize (IH s1).
    destruct (process_lines h s1 lines) as [[ev2 s2] f2].
    apply stretch_app; assumption.
Qed.

Lemma read_loop_stretch items fin : forall d buffer s,
  let '(ev, _, x) := read_loop h d buffer s items fin in
  stretch ev (left_by_return x).
Proof.
  induction items as [|[v|] items IH]; intros d buffer s; cbn [read_loop].
  - destruct (aborted s); [constructor|]. destruct fin; constructor.
  - destruct (aborted s); [constructor|].
    destruct (Utf8.decode d v) as [t d1].
    pose proof (process_lines_stretch (removelast (split_nl (buffer ++ t))) s) as H1.
    destruct (process_lines h s _) as [[ev1 s1] f1].
    destruct f1; [|assumption].
    specialize (IH d1 (pop_or_empty (split_nl (buffer ++ t))) s1).
    destruct (read_loop h d1 _ s1 items fin) as [[ev2 s2] x].
    apply stretch_app; assumption.
  - destruct (aborted s); [constructor|].
    specialize (IH d buffer {| hist := hist s; aborted := true |}).
    destruct (read_loop h d buffer _ items fin) as [[ev2 s2] x].
    unfold stretch in *. simpl calls. assumption.
Qed.

Lemma stretch_single ev r : stretch ev r -> single_terminal (calls ev).
Proof.
  unfold stretch, single_terminal. destruct r.
  - intros [ps [c [E [Hp Ht]]]]. exists ps, [c]. repeat split; eauto.
  - intros Hp. exists (calls ev), []. rewrite app_nil_r. auto.
Qed.

Lemma catch_stretch s e : stretch (fst (catch h s e)) true \/ calls (fst (catch h s e)) = [].
Proof.
  unfold catch. destruct (JsString.eqb _ _); simpl; [right; reflexivity|].
  left. exists [], (OnError (or_else (Val (JStr (message e))) fallback)).
  simpl. rewrite calls_cancel_events. repeat split. constructor.
Qed.

Lemma catch_single s e : single_terminal (calls (fst (catch h s e))).
Proof.
  destruct (catch_stretch s e) as [H|H].
  - apply (stretch_single _ true). assumption.
  - rewrite H. exists [], []. repeat split; [constructor | auto].
Qed.

(** While the callbacks return normally, a run invokes [onProgress] some
    number of times, then at most one of [onComplete] and [onError], once,
    and nothing after it. *)
Lemma returning_callbacks_single_terminal net :
  single_terminal (calls (fst (runStream h net))).
Proof.
  unfold runStream. destruct net as [first fetched]. cbn [cancel_first Stream.fetched].
  destruct first.
  - rewrite catch_abort. exists [], []. repeat split; [constructor | auto].
  - destruct fetched as [|e|ok status body].
    + exists [], []. repeat split; [constructor | auto].
    + apply catch_single.
    + destruct ok; cbn [negb]; [|apply catch_single].
      destruct body as [[items fin]|]; [|apply catch_single].
      pose proof (read_loop_stretch items fin Utf8.fresh [] start) as H.
      destruct (read_loop h Utf8.fresh [] start items fin) as [[ev s] x].
      destruct x as [| |e|]; cbn [left_by_return] in H; cbn [fst];
        try (apply (stretch_single _ _ H)).
      destruct (catch_stretch s e) as [Hc|Hc];
        destruct (catch h s e) as [ev2 p]; cbn [fst] in *.
      * apply (stretch_single _ true). apply stretch_app; assumption.
      * rewrite calls_app, Hc, app_nil_r. apply (stretch_single _ false H).
Qed.

End TerminalCallbacks.

(** Two progress frames, a complete frame and a late error frame, with
    callbacks that return: the run stops at [onComplete]. *)
Example complete_then_error_run :
  single_terminal
    (calls (fst (runStream quiet
       (streaming
          [Chunk (wire_bytes "data: {'type':'progress','n':1}|data: {'type':'progress','n':2}|");
           Chunk (wire_bytes "data: {'type':'complete','result':3}|data: {'type':'error'}|")]
          Done))))
  /\ calls (fst (runStream quiet
       (streaming
          [Chunk (wire_bytes "data: {'type':'progress','n':1}|data: {'type':'progress','n':2}|");
           Chunk (wire_bytes "data: {'type':'complete','result':3}|data: {'type':'error'}|")]
          Done)))
     = [OnProgress (JObj [(lit "type", JStr (lit "progress")); (lit "n", JNum (lit "1"))]);
        OnProgress (JObj [(lit "type", JStr (lit "progress")); (lit "n", JNum (lit "2"))]);
        OnComplete (Val (JNum (lit "3")))].
Proof.
  split; [|reflexivity].
  apply returning_callbacks_single_terminal. exact quiet_never_throws.
Qed.

(** ** Callbacks that throw *)

Section ThrowingCallbacks.

(** C3: the run below receives a [complete] frame and then an [error]
    frame in one chunk, and its [onComplete] throws. The [catch] meant for
    parse errors takes the exception, the [return] is skipped, and the next
    line is dispatched: [onComplete] and [onError] are both invoked. *)
Theorem terminal_callback_twice_when_onComplete_throws :
  fst (runStream complete_throws
        (streaming
           [Chunk (wire_bytes
              "data: {'type':'complete','result':1}|data: {'type':'error','message':'late'}|")]
           Done))
  = [Call (OnComplete (Val (JNum (lit "1"))));
     ConsoleError parse_label;
     Call (OnError (Val (JStr (lit "late"))))]
  /\ ~ single_terminal
        [OnComplete (Val (JNum (lit "1"))); OnError (Val (JStr (lit "late")))].
Proof.
  split; [reflexivity|].
  intros [ps [t [E [Hp Ht]]]].
  destruct ps as [|p1 ps].
  - destruct Ht as [->|[c [-> _]]]; discriminate E.
  - injection E as E1 _. subst p1. inversion Hp. discriminate.
Qed.

(** C4: the run below receives a [complete] frame and then a [progress]
    frame in one chunk, and its [onComplete] throws: [onProgress] is
    invoked after the terminal callback. *)
Theorem progress_after_terminal_when_onComplete_throws :
  calls (fst (runStream complete_throws
        (streaming
           [Chunk (wire_bytes
              "data: {'type':'complete','result':1}|data: {'type':'progress','n':2}|")]
           Done)))
  = [OnComplete (Val (JNum (lit "1")));
     OnProgress (JObj [(lit "type", JStr (lit "progress")); (lit "n", JNum (lit "2"))])].
Proof. reflexivity. Qed.

End ThrowingCallbacks.

(** ** Dispatch of one line *)

Section Dispatch.

Variable h : handlers.

Lemma is_string_refl text : is_string (Val (JStr text)) text = true.
Proof. apply jsstring_eqb_refl. Qed.

(** The prefix test passed and [JSON.parse] returned [data]. *)
Lemma process_line_frame s line data :
  startsWith line (lit "data: ") = true ->
  JSON_parse (slice 6 line) = Some data ->
  process_line h s line = dispatch h s data.
Proof.
  intros Hp Hd. unfold process_line.
  rewrite (startsWith_data_not_blank line Hp), Hp, Hd. reflexivity.
Qed.

Lemma process_lines_cons_calls s line rest :
  calls (fst (fst (process_lines h s (line :: rest))))
  = calls (fst (fst (process_line h s line)))
    ++ (if returns (snd (process_line h s line)) then []
        else calls (fst (fst (process_lines h (snd (fst (process_line h s line))) rest)))).
Proof.
  cbn [process_lines].
  destruct (process_line h s line) as [[ev1 s1] f1]. cbn [fst snd].
  destruct f1; cbn [returns fst].
  - destruct (process_lines h s1 rest) as [[ev2 s2] f2]. cbn [fst].
    apply calls_app.
  - symmetry. apply app_nil_r.
Qed.

(** A [progress] frame: one [onProgress] with the whole payload, and the
    loop goes on even when the callback throws. *)
Lemma progress_line s line data :
  startsWith line (lit "data: ") = true ->
  JSON_parse (slice 6 line) = Some data ->
  get data (lit "type") = Some (Val (JStr (lit "progress"))) ->
  calls (fst (fst (process_line h s line))) = [OnProgress data]
  /\ snd (process_line h s line) = Continue.
Proof.
  intros Hp Hd Ht. rewrite (process_line_frame s line data Hp Hd).
  unfold dispatch. rewrite Ht, is_string_refl.
  rewrite callback_calls, callback_flow. split; [reflexivity|].
  destruct (throws _); reflexivity.
Qed.

(** Frames [progress A], [progress B], [complete C] on three lines are
    dispatched as [onProgress(A)], [onProgress(B)], [onComplete(C.result)],
    whatever the callbacks do. *)
Lemma progress_progress_complete_in_order s la lb lc A B C result :
  startsWith la (lit "data: ") = true -> JSON_parse (slice 6 la) = Some A ->
  startsWith lb (lit "data: ") = true -> JSON_parse (slice 6 lb) = Some B ->
  startsWith lc (lit "data: ") = true -> JSON_parse (slice 6 lc) = Some C ->
  get A (lit "type") = Some (Val (JStr (lit "progress"))) ->
  get B (lit "type") = Some (Val (JStr (lit "progress"))) ->
  get C (lit "type") = Some (Val (JStr (lit "complete"))) ->
  get C (lit "result") = Some result ->
  calls (fst (fst (process_lines h s [la; lb; lc])))
  = [OnProgress A; OnProgress B; OnComplete result].
Proof.
  intros Pa Da Pb Db Pc Dc Ta Tb Tc Rc.
  rewrite process_lines_cons_calls.
  rewrite (proj1 (progress_line s la A Pa Da Ta)), (proj2 (progress_line s la A Pa Da Ta)).
  cbn [returns].
  rewrite process_lines_cons_calls.
  rewrite (proj1 (progress_line _ lb B Pb Db Tb)), (proj2 (progress_line _ lb B Pb Db Tb)).
  cbn [returns].
  rewrite process_lines_cons_calls.
  rewrite (process_line_frame _ lc C Pc Dc). unfold dispatch. rewrite Tc, Rc.
  change (is_string (Val (JStr (lit "complete"))) (lit "progress")) with false.
  rewrite is_string_refl. cbv iota.
  rewrite callback_calls.
  destruct (returns _); reflexivity.
Qed.

End Dispatch.

(** ** Error frames, malformed frames and ignored lines *)

Section SkippedLines.

Variable h : handlers.

(** A line that invokes no callback and leaves the session and the loop as
    they are can be taken out of a sequence of lines. *)
Lemma skipped_line_in_lines before l after : forall s,
  (forall s', calls (fst (fst (process_line h s' l))) = []
              /\ snd (fst (process_line h s' l)) = s'
              /\ snd (process_line h s' l) = Continue) ->
  let '(ev, s1, f1) := process_lines h s (before ++ l :: after) in
  let '(ev0, s0, f0) := process_lines h s (before ++ after) in
  calls ev = calls ev0 /\ s1 = s0 /\ f1 = f0.
Proof.
  intros s Hl. rewrite !process_lines_app.
  destruct (process_lines h s before) as [[ev1 s1] f1].
  destruct f1; [|auto].
  cbn [process_lines]. destruct (Hl s1) as [Hc [Hs Hf]].
  destruct (process_line h s1 l) as [[evl sl] fl]. cbn [fst snd] in Hc, Hs, Hf.
  subst sl fl.
  destruct (process_lines h s1 after) as [[ev2 s2] f2].
  rewrite !calls_app, Hc. auto.
Qed.

(** The same for whole runs: two streams whose closed lines differ by such
    a line invoke the same callbacks and end the same way. *)
Lemma skipped_line_in_stream chunks chunks' fin before l after :
  never_cancels h ->
  (forall s', calls (fst (fst (process_line h s' l))) = []
              /\ snd (fst (process_line h s' l)) = s'
              /\ snd (process_line h s' l) = Continue) ->
  complete_lines (fst (Utf8.decode Utf8.fresh (List.concat chunks)))
  = before ++ l :: after ->
  complete_lines (fst (Utf8.decode Utf8.fresh (List.concat chunks')))
  = before ++ after ->
  calls (fst (runStream h (streaming (map Chunk chunks) fin)))
  = calls (fst (runStream h (streaming (map Chunk chunks') fin)))
  /\ snd (runStream h (streaming (map Chunk chunks) fin))
     = snd (runStream h (streaming (map Chunk chunks') fin)).
Proof.
  intros Hh Hl H1 H2. unfold runStream, streaming.
  cbn [cancel_first fetched negb].
  rewrite <- (app_nil_r (map Chunk chunks)), <- (app_nil_r (map Chunk chunks')).
  rewrite !(read_loop_concat h Hh) by reflexivity.
  cbn [read_loop start aborted app]. unfold complete_lines in H1, H2.
  destruct (Utf8.decode Utf8.fresh (List.concat chunks)) as [t d1].
  destruct (Utf8.decode Utf8.fresh (List.concat chunks')) as [t' d1'].
  cbn [fst] in H1, H2. rewrite H1, H2.
  pose proof (skipped_line_in_lines before l after {| hist := []; aborted := false |} Hl) as H.
  destruct (process_lines h _ (before ++ l :: after)) as [[ev s1] f1].
  destruct (process_lines h _ (before ++ after)) as [[ev0 s0] f0].
  destruct H as [Hc [-> ->]].
  destruct f0; [|cbn [fst snd]; auto].
  destruct (aborted s0), fin; cbn [fst snd]; rewrite ?app_nil_r; auto;
    match goal with
    | |- context [catch h s0 ?e] =>
        destruct (catch h s0 e) as [ev2 p]; cbn [fst snd];
        rewrite !calls_app, Hc; auto
    end.
Qed.

End SkippedLines.

Section Frames.

Variable h : handlers.

(** C5, as the code has it: a line that carries a frame of type [error]
    invokes [onError] once, with the frame's [message] when that value is
    truthy (any non-empty string is) and with the fixed string
    [Analysis failed] when the field is absent or its value is falsy (the
    empty string is); unless [onError] throws, the run returns. *)
Theorem error_frame_reaches_onError s line data :
  startsWith line (lit "data: ") = true ->
  JSON_parse (slice 6 line) = Some data ->
  get data (lit "type") = Some (Val (JStr (lit "error"))) ->
  exists m,
    get data (lit "message") = Some m
    /\ calls (fst (fst (process_line h s line)))
       = [OnError (if truthy m then m else fallback)]
    /\ (forall text, m = Val (JStr text) -> text <> [] ->
          (if truthy m then m else fallback) = Val (JStr text))
    /\ (m = Undefined \/ m = Val (JStr []) ->
          (if truthy m then m else fallback) = fallback)
    /\ (throws (h (hist s) (OnError (if truthy m then m else fallback))) = false ->
          snd (process_line h s line) = Return).
Proof.
  intros Hp Hd Ht.
  assert (exists m, get data (lit "message") = Some m) as [m Hm].
  { destruct data; try discriminate Ht; eexists; reflexivity. }
  exists m. rewrite (process_line_frame h s line data Hp Hd).
  unfold dispatch. rewrite Ht, Hm.
  change (is_string (Val (JStr (lit "error"))) (lit "progress")) with false.
  change (is_string (Val (JStr (lit "error"))) (lit "complete")) with false.
  rewrite is_string_refl. cbv iota.
  rewrite callback_calls, callback_flow. unfold or_else.
  repeat split.
  - intros text -> Hne. simpl.
    destruct (JsString.eqb text []) eqn:E; [|reflexivity].
    apply jsstring_eqb_eq in E. contradiction.
  - intros [->| ->]; reflexivity.
  - intros ->. reflexivity.
Qed.


(** C8: a line that is blank after trimming, a line without the [data: ]
    prefix, and a frame whose [type] is none of [progress], [complete] and
    [error] are passed over: no callback, no log line, the same session,
    and the loop goes on; and a stream that contains such a line invokes
    the same callbacks, and ends the same way, as the stream without it. *)
Theorem ignorable_line_is_ignored s line :
  ignorable line ->
  process_line h s line = ([], s, Continue)
  /\ (forall chunks chunks' fin before after,
        never_cancels h ->
        complete_lines (fst (Utf8.decode Utf8.fresh (List.concat chunks)))
        = before ++ line :: after ->
        complete_lines (fst (Utf8.decode Utf8.fresh (List.concat chunks')))
        = before ++ after ->
        calls (fst (runStream h (streaming (map Chunk chunks) fin)))
        = calls (fst (runStream h (streaming (map Chunk chunks') fin)))
        /\ snd (runStream h (streaming (map Chunk chunks) fin))
           = snd (runStream h (streaming (map Chunk chunks') fin))).
Proof.
  intros Hi.
  assert (Hline : forall s', process_line h s' line = ([], s', Continue)).
  { intros s'. unfold process_line.
    destruct Hi as [Hb|[Hp|[data [t [Hp [Hd [Ht [H1 [H2 H3]]]]]]]]].
    - rewrite Hb. reflexivity.
    - rewrite Hp. destruct (JsString.eqb _ _); reflexivity.
    - rewrite (startsWith_data_not_blank line Hp), Hp, Hd.
      unfold dispatch. rewrite Ht, H1, H2, H3. reflexivity. }
  split; [apply Hline|].
  intros chunks chunks' fin before after Hh H1 H2.
  apply (skipped_line_in_stream h chunks chunks' fin before line after);
    try assumption.
  intros s'. rewrite Hline. auto.
Qed.

End Frames.

Section FrameExamples.

(** The error frame of the protocol description. *)
Lemma error_frame_reaches_onError_witness :
  exists m,
    get (JObj [(lit "type", JStr (lit "error"));
               (lit "message", JStr (lit "insufficient data"))])
        (lit "message") = Some m
    /\ calls (fst (fst (process_line quiet start
         (wire_text "data: {'type':'error','message':'insufficient data'}"))))
       = [OnError (if truthy m then m else fallback)]
    /\ (forall text, m = Val (JStr text) -> text <> [] ->
          (if truthy m then m else fallback) = Val (JStr text))
    /\ (m = Undefined \/ m = Val (JStr []) ->
          (if truthy m then m else fallback) = fallback)
    /\ (throws (quiet (hist start) (OnError (if truthy m then m else fallback))) = false ->
          snd (process_line quiet start
                 (wire_text "data: {'type':'error','message':'insufficient data'}"))
          = Return).
Proof.
  apply (error_frame_reaches_onError quiet start
           (wire_text "data: {'type':'error','message':'insufficient data'}")
           (JObj [(lit "type", JStr (lit "error"));
                  (lit "message", JStr (lit "insufficient data"))]));
    reflexivity.
Defined.

(** The same frame through a whole run: [onError("insufficient data")],
    once, and the run is over. *)
Example insufficient_data_run :
  runStream quiet
    (streaming [Chunk (wire_bytes "data: {'type':'error','message':'insufficient data'}|")]
               Pending)
  = ([Call (OnError (Val (JStr (lit "insufficient data"))))], Fulfilled).
Proof. reflexivity. Qed.

(** C5, as stated, fails: the frame below has a [message] field, the empty
    string, and [onError] receives the fallback string instead of it. *)
Lemma empty_message_is_replaced :
  JSON_parse (wire_text "{'type':'error','message':''}")
  = Some (JObj [(lit "type", JStr (lit "error")); (lit "message", JStr [])])
  /\ runStream quiet
       (streaming [Chunk (wire_bytes "data: {'type':'error','message':''}|")] Pending)
     = ([Call (OnError (Val (JStr (lit "Analysis failed"))))], Fulfilled)
  /\ OnError (Val (JStr (lit "Analysis failed"))) <> OnError (Val (JStr [])).
Proof. repeat split. discriminate. Qed.


(** The same three lines through a whole run: both progress frames are
    dispatched in order, the malformed one is logged, the run goes on. *)
Example malformed_between_progress_run :
  runStream quiet
    (streaming
       [Chunk (wire_bytes
          "data: {'type':'progress','n':1}|data: {'type':'progress'|data: {'type':'progress','n':2}|")]
       Pending)
  = ([Call (OnProgress (JObj [(lit "type", JStr (lit "progress")); (lit "n", JNum (lit "1"))]));
      ConsoleError parse_label;
      Call (OnProgress (JObj [(lit "type", JStr (lit "progress")); (lit "n", JNum (lit "2"))]))],
     Suspended).
Proof. reflexivity. Qed.

(** A frame of a kind the client does not know. *)
Lemma ignorable_line_is_ignored_witness :
  process_line quiet start (wire_text "data: {'type':'heartbeat'}")
  = ([], start, Continue)
  /\ (forall chunks chunks' fin before after,
        never_cancels quiet ->
        complete_lines (fst (Utf8.decode Utf8.fresh (List.concat chunks)))
        = before ++ wire_text "data: {'type':'heartbeat'}" :: after ->
        complete_lines (fst (Utf8.decode Utf8.fresh (List.concat chunks')))
        = before ++ after ->
        calls (fst (runStream quiet (streaming (map Chunk chunks) fin)))
        = calls (fst (runStream quiet (streaming (map Chunk chunks') fin)))
        /\ snd (runStream quiet (streaming (map Chunk chunks) fin))
           = snd (runStream quiet (streaming (map Chunk chunks') fin))).
Proof.
  apply ignorable_line_is_ignored. right. right.
  exists (JObj [(lit "type", JStr (lit "heartbeat"))]), (Val (JStr (lit "heartbeat"))).
  repeat split.
Defined.

(** A blank line, a comment line, a frame without [type], and a frame
    behind leading spaces, in a run between two progress frames. *)
Example ignored_lines_run :
  runStream quiet
    (streaming
       [Chunk (wire_bytes
          "data: {'type':'progress','n':1}|   |: keep-alive|data: {'n':0}| data: {'type':'complete'}|data: {'type':'progress','n':2}|")]
       Pending)
  = ([Call (OnProgress (JObj [(lit "type", JStr (lit "progress")); (lit "n", JNum (lit "1"))]));
      Call (OnProgress (JObj [(lit "type", JStr (lit "progress")); (lit "n", JNum (lit "2"))]))],
     Suspended).
Proof. reflexivity. Qed.

End FrameExamples.

(** ** Failures of the transport *)

Section Failures.




(** What the caller sees of that response, and of a read that fails after
    a progress frame with an error that has no message. *)
Example http_500_run :
  runStream quiet {| cancel_first := false; fetched := Responds false 500 None |}
  = ([ConsoleError failure_label;
      Call (OnError (Val (JStr (lit "HTTP error! status: 500"))))], Fulfilled).
Proof. reflexivity. Qed.

Example read_failure_run :
  runStream quiet
    (streaming [Chunk (wire_bytes "data: {'type':'progress'}|")]
               (ReadFails {| name := lit "TypeError"; message := [] |}))
  = ([Call (OnProgress (JObj [(lit "type", JStr (lit "progress"))]));
      ConsoleError failure_label;
      Call (OnError (Val (JStr (lit "Analysis failed"))))], Fulfilled).
Proof. reflexivity. Qed.

End Failures.

(** ** The request body *)

Section RequestBody.

Import Request.

Lemma field_initial_cash request :
  field "initial_cash" (request_body request)
  = serialize (ANumber (number_or (initialCash request) 100000%float)).
Proof.
  unfold request_body, body_object.
  destruct (startDate request), (endDate request); reflexivity.
Qed.

Lemma field_margin_requirement request :
  field "margin_requirement" (request_body request)
  = serialize (ANumber (number_or (marginRequirement request) 0%float)).
Proof.
  unfold request_body, body_object.
  destruct (startDate request), (endDate request); reflexivity.
Qed.

Lemma serialize_number_or x dflt :
  PrimFloat.is_finite dflt = true ->
  serialize (ANumber (number_or x dflt))
  = Some match x with
         | None => WNumber dflt
         | Some f =>
             if PrimFloat.is_nan f || PrimFloat.is_zero f then WNumber dflt
             else if PrimFloat.is_infinity f then WNull
             else WNumber f
         end.
Proof.
  intros Hd. unfold serialize, number_or, number_truthy.
  destruct x as [f|]; [|rewrite Hd; reflexivity].
  destruct (PrimFloat.is_nan f || PrimFloat.is_zero f) eqn:E; cbn [negb].
  - rewrite Hd. reflexivity.
  - unfold PrimFloat.is_finite. apply orb_false_elim in E. destruct E as [-> _].
    cbn [orb]. destruct (PrimFloat.is_infinity f); reflexivity.
Qed.

(** C10, as the code has it: the body always has the fields [initial_cash]
    and [margin_requirement]. [initial_cash] is 100000 when [initialCash] is
    absent, zero (of either sign) or NaN, and [margin_requirement] is 0 in
    the same three cases of [marginRequirement]; an infinite value is
    written [null]; any other value is sent as it is. *)
Theorem cash_and_margin_in_body request :
  field "initial_cash" (request_body request)
  = Some match initialCash request with
         | None => WNumber 100000
         | Some f =>
             if PrimFloat.is_nan f || PrimFloat.is_zero f then WNumber 100000
             else if PrimFloat.is_infinity f then WNull
             else WNumber f
         end
  /\ field "margin_requirement" (request_body request)
     = Some match marginRequirement request with
            | None => WNumber 0
            | Some f =>
                if PrimFloat.is_nan f || PrimFloat.is_zero f then WNumber 0
                else if PrimFloat.is_infinity f then WNull
                else WNumber f
            end.
Proof.
  rewrite field_initial_cash, field_margin_requirement.
  split; apply serialize_number_or; reflexivity.
Qed.

(** C10, as stated, fails: an infinite [initialCash] and a NaN
    [marginRequirement] are neither absent nor equal to 0, and neither is
    sent unchanged: the first goes out as [null], the second as 0. *)
Lemma infinite_cash_and_nan_margin_are_changed :
  let request :=
    {| tickers := [lit "AAPL"];
       selectedAnalysts := [lit "warren_buffett"];
       modelProvider := lit "OpenAI";
       modelName := lit "gpt-4o";
       startDate := None;
       endDate := None;
       initialCash := Some PrimFloat.infinity;
       marginRequirement := Some PrimFloat.nan |} in
  PrimFloat.eqb PrimFloat.infinity 0 = false
  /\ PrimFloat.eqb PrimFloat.nan 0 = false
  /\ field "initial_cash" (request_body request) = Some WNull
  /\ field "margin_requirement" (request_body request) = Some (WNumber 0)
  /\ WNumber 0 <> WNumber PrimFloat.nan.
Proof.
  repeat split.
  intros E.
  apply (f_equal (fun w => match w with
                           | WNumber f => PrimFloat.is_nan f
                           | _ => false
                           end)) in E.
  vm_compute in E. discriminate E.
Qed.

(** The default form values, and a zero initial cash. *)
Example default_cash_and_margin :
  request_body
    {| tickers := [lit "AAPL"];
       selectedAnalysts := [lit "warren_buffett"];
       modelProvider := lit "OpenAI";
       modelName := lit "gpt-4o";
       startDate := Some (lit "2024-01-01");
       endDate := None;
       initialCash := Some 0%float;
       marginRequirement := Some 0.5%float |}
  = [("tickers"%string, WStrings [lit "AAPL"]);
     ("selected_agents"%string, WStrings [lit "warren_buffett"]);
     ("model_name"%string, WString (lit "gpt-4o"));
     ("model_provider"%string, WString (lit "OpenAI"));
     ("start_date"%string, WString (lit "2024-01-01"));
     ("initial_cash"%string, WNumber 100000);
     ("margin_requirement"%string, WNumber 0.5)].
Proof. reflexivity. Qed.

End RequestBody.

(** * Further properties of the stream consumer *)

(** ** What the callbacks are given *)

Section CallArguments.

Variable P : call -> Prop.

Hypothesis P_progress : forall data,
  get data (lit "type") = Some (Val (JStr (lit "progress"))) -> P (OnProgress data).
Hypothesis P_complete : forall result, P (OnComplete result).
Hypothesis P_error : forall m, P (OnError (or_else m fallback)).

Variable h : handlers.

Lemma is_string_true v text : is_string v text = true -> v = Val (JStr text).
Proof.
  destruct v as [|[| | |t| |]]; simpl; try discriminate.
  intros E. apply jsstring_eqb_eq in E. subst. reflexivity.
Qed.

Lemma callback_holds s c next :
  P c -> Forall P (calls (fst (fst (callback h s c next)))).
Proof. intros Hc. rewrite callback_calls. repeat constructor. assumption. Qed.

Lemma process_line_holds s line :
  Forall P (calls (fst (fst (process_line h s line)))).
Proof.
  unfold process_line.
  destruct (JsString.eqb (trim line) []); [constructor|].
  destruct (startsWith line (lit "data: ")); [|constructor].
  destruct (JSON_parse (slice 6 line)) as [data|]; [|constructor].
  unfold dispatch.
  destruct (get data (lit "type")) as [t|] eqn:Ht; [|constructor].
  destruct (is_string t (lit "progress")) eqn:E1.
  { apply callback_holds, P_progress. apply is_string_true in E1. congruence. }
  destruct (is_string t (lit "complete")).
  { destruct (get data (lit "result")); [|constructor].
    apply callback_holds, P_complete. }
  destruct (is_string t (lit "error")); [|constructor].
  destruct (get data (lit "message")); [|constructor].
  apply callback_holds, P_error.
Qed.

Lemma process_lines_hold lines : forall s,
  Forall P (calls (fst (fst (process_lines h s lines)))).
Proof.
  induction lines as [|line lines IH]; intros s; [constructor|].
  rewrite process_lines_cons_calls. apply Forall_app. split.
  - apply process_line_holds.
  - destruct (returns _); [constructor | apply IH].
Qed.

Lemma read_loop_holds items fin : forall d buffer s,
  Forall P (calls (fst (fst (read_loop h d buffer s items fin)))).
Proof.
  induction items as [|[v|] items IH]; intros d buffer s; cbn [read_loop].
  - destruct (aborted s); [constructor|]. destruct fin; constructor.
  - destruct (aborted s); [constructor|].
    destruct (Utf8.decode d v) as [t d1].
    pose proof (process_lines_hold (removelast (split_nl (buffer ++ t))) s) as H1.
    destruct (process_lines h s _) as [[ev1 s1] f1]. cbn [fst] in H1.
    destruct f1; [|assumption].
    specialize (IH d1 (pop_or_empty (split_nl (buffer ++ t))) s1).
    destruct (read_loop h d1 _ s1 items fin) as [[ev2 s2] x]. cbn [fst] in *.
    rewrite calls_app. apply Forall_app. split; assumption.
  - destruct (aborted s); [constructor|].
    specialize (IH d buffer {| hist := hist s; aborted := true |}).
    destruct (read_loop h d buffer _ items fin) as [[ev2 s2] x]. cbn [fst] in *.
    assumption.
Qed.

Lemma catch_holds s e : Forall P (calls (fst (catch h s e))).
Proof.
  unfold catch. destruct (JsString.eqb _ _); cbn [fst calls]; [constructor|].
  rewrite calls_cancel_events. repeat constructor. apply P_error.
Qed.

Lemma runStream_holds net : Forall P (calls (fst (runStream h net))).
Proof.
  unfold runStream. destruct net as [first fetched]. cbn [cancel_first Stream.fetched].
  destruct first; [rewrite catch_abort; constructor|].
  destruct fetched as [|e|ok status body]; [constructor | apply catch_holds |].
  destruct ok; cbn [negb]; [|apply catch_holds].
  destruct body as [[items fin]|]; [|apply catch_holds].
  pose proof (read_loop_holds items fin Utf8.fresh [] start) as H.
  destruct (read_loop h Utf8.fresh [] start items fin) as [[ev s] x]. cbn [fst] in H.
  destruct x as [| |e|]; cbn [fst]; try assumption.
  pose proof (catch_holds s e) as Hc.
  destruct (catch h s e) as [ev2 p]. cbn [fst] in *.
  rewrite calls_app. apply Forall_app. split; assumption.
Qed.

End CallArguments.

Section CallArgumentFacts.

Lemma or_else_fallback_truthy m : truthy (or_else m fallback) = true.
Proof. unfold or_else. destruct (truthy m) eqn:E; [assumption | reflexivity]. Qed.

(** X1: whatever the callbacks do and whatever the network does, [onError]
    is never given a falsy value (no [undefined], no empty string): every
    argument it receives went through [|| 'Analysis failed']. *)
Theorem onError_argument_is_truthy h net v :
  In (OnError v) (calls (fst (runStream h net))) -> truthy v = true.
Proof.
  intros Hin.
  pose proof (runStream_holds
                (fun c => match c with OnError v => truthy v = true | _ => True end)
                (fun _ _ => I) (fun _ => I) or_else_fallback_truthy h net) as H.
  rewrite Forall_forall in H. apply (H _ Hin).
Qed.

Lemma onError_argument_is_truthy_witness :
  truthy (Val (JStr (lit "HTTP error! status: 503"))) = true.
Proof.
  apply (onError_argument_is_truthy quiet
           {| cancel_first := false; fetched := Responds false 503 None |}).
  left. reflexivity.
Defined.

Lemma get_type_progress data :
  get data (lit "type") = Some (Val (JStr (lit "progress"))) ->
  exists fields,
    data = JObj fields /\ lookup (lit "type") fields = Val (JStr (lit "progress")).
Proof.
  destruct data as [| | | | |fields]; cbn [get]; intros E; try discriminate E.
  exists fields. split; [reflexivity|]. congruence.
Qed.

(** X2: whatever the callbacks do and whatever the network does,
    [onProgress] is only ever given an object parsed from a frame whose own
    [type] property is the string [progress]. *)
Theorem onProgress_argument_is_progress_object h net data :
  In (OnProgress data) (calls (fst (runStream h net))) ->
  exists fields,
    data = JObj fields /\ lookup (lit "type") fields = Val (JStr (lit "progress")).
Proof.
  intros Hin.
  pose proof (runStream_holds
                (fun c => match c with
                          | OnProgress data =>
                              exists fields, data = JObj fields
                                /\ lookup (lit "type") fields = Val (JStr (lit "progress"))
                          | _ => True
                          end)
                get_type_progress (fun _ => I) (fun _ => I) h net) as H.
  rewrite Forall_forall in H. apply (H _ Hin).
Qed.

Lemma onProgress_argument_is_progress_object_witness :
  exists fields,
    JObj [(lit "type", JStr (lit "progress")); (lit "n", JNum (lit "1"))] = JObj fields
    /\ lookup (lit "type") fields = Val (JStr (lit "progress")).
Proof.
  apply (onProgress_argument_is_progress_object quiet
           (streaming [Chunk (wire_bytes "data: {'type':'progress','n':1}|junk")] Done)).
  left. reflexivity.
Defined.

End CallArgumentFacts.

(** ** Events only depend on what has arrived *)

Section Causality.

Variable h : handlers.

(** The loop over a body that goes on: up to the point where the first
    part is exhausted it does what it does on the first part alone. *)
Lemma read_loop_app items more fin : forall d buffer s,
  let '(ev, s', x) := read_loop h d buffer s items Pending in
  match x with
  | Awaiting =>
      exists d' buffer',
        read_loop h d buffer s (items ++ more) fin
        = let '(ev2, s2, x2) := read_loop h d' buffer' s' more fin in
          (ev ++ ev2, s2, x2)
  | _ => read_loop h d buffer s (items ++ more) fin = (ev, s', x)
  end.
Proof.
  induction items as [|[v|] items IH]; intros d buffer s.
  - cbn [app]. cbn [read_loop]. destruct (aborted s) eqn:Hs.
    + apply read_loop_aborted. assumption.
    + exists d, buffer. destruct (read_loop h d buffer s more fin) as [[ev2 s2] x2].
      reflexivity.
  - cbn [app read_loop]. destruct (aborted s); [reflexivity|].
    destruct (Utf8.decode d v) as [t d1].
    destruct (process_lines h s _) as [[ev1 s1] f1].
    destruct f1; [|reflexivity].
    specialize (IH d1 (pop_or_empty (split_nl (buffer ++ t))) s1).
    destruct (read_loop h d1 _ s1 items Pending) as [[ev2 s2] x].
    destruct x; try (rewrite IH; reflexivity).
    destruct IH as [d' [buffer' IH]]. exists d', buffer'. rewrite IH.
    destruct (read_loop h d' buffer' s2 more fin) as [[ev3 s3] x3].
    rewrite app_assoc. reflexivity.
  - cbn [app read_loop]. destruct (aborted s); [reflexivity|].
    specialize (IH d buffer {| hist := hist s; aborted := true |}).
    destruct (read_loop h d buffer _ items Pending) as [[ev2 s2] x].
    destruct x; try (rewrite IH; reflexivity).
    destruct IH as [d' [buffer' IH]]. exists d', buffer'. rewrite IH.
    destruct (read_loop h d' buffer' s2 more fin) as [[ev3 s3] x3].
    reflexivity.
Qed.

(** X3: the events of a run are produced in step with the body: what the
    run has done when a first part of the body has arrived is a prefix of
    what it does in the end, whatever arrives next and however the body
    ends. *)
Theorem events_extend_with_the_body items more fin :
  exists later,
    fst (runStream h (streaming (items ++ more) fin))
    = fst (runStream h (streaming items Pending)) ++ later.
Proof.
  unfold runStream, streaming. cbn [cancel_first fetched negb].
  pose proof (read_loop_app items more fin Utf8.fresh [] start) as H.
  destruct (read_loop h Utf8.fresh [] start items Pending) as [[ev s] x].
  destruct x as [| |e|].
  - rewrite H. exists []. cbn [fst]. symmetry. apply app_nil_r.
  - rewrite H. exists []. cbn [fst]. symmetry. apply app_nil_r.
  - rewrite H. exists []. symmetry. apply app_nil_r.
  - destruct H as [d' [buffer' H]]. rewrite H.
    destruct (read_loop h d' buffer' s more fin) as [[ev2 s2] x2].
    destruct x2 as [| |e|]; cbn [fst]; try (exists ev2; reflexivity).
    destruct (catch h s2 e) as [ev3 p]. cbn [fst].
    exists (ev2 ++ ev3). symmetry. apply app_assoc.
Qed.

(** X4: with callbacks that return, once a terminal callback has been
    invoked the run is over: nothing that arrives afterwards, and no way
    the body ends, changes its events or its outcome. *)
Theorem nothing_is_read_after_a_terminal_callback items more fin c :
  never_throws h ->
  In c (calls (fst (runStream h (streaming items Pending)))) ->
  is_terminal c = true ->
  runStream h (streaming (items ++ more) fin)
  = runStream h (streaming items Pending).
Proof.
  intros Hh Hin Hc. revert Hin.
  unfold runStream, streaming. cbn [cancel_first fetched negb].
  pose proof (read_loop_app items more fin Utf8.fresh [] start) as H.
  pose proof (read_loop_stretch h Hh items Pending Utf8.fresh [] start) as Hs.
  destruct (read_loop h Utf8.fresh [] start items Pending) as [[ev s] x].
  destruct x as [| |e|]; try (rewrite H; reflexivity).
  cbn [left_by_return stretch fst] in *. intros Hin.
  unfold progress_only in Hs. rewrite Forall_forall in Hs.
  rewrite (Hs c Hin) in Hc. discriminate Hc.
Qed.

End Causality.

(** A complete frame, then an error frame and a failing read. *)
Lemma nothing_is_read_after_a_terminal_callback_witness :
  runStream quiet
    (streaming
       ([Chunk (wire_bytes "data: {'type':'complete','result':{}}|")]
        ++ [Chunk (wire_bytes "data: {'type':'error','message':'late'}|")])
       (ReadFails {| name := lit "TypeError"; message := lit "network error" |}))
  = runStream quiet
      (streaming [Chunk (wire_bytes "data: {'type':'complete','result':{}}|")] Pending).
Proof.
  apply (nothing_is_read_after_a_terminal_callback quiet _ _ _
           (OnComplete (Val (JObj [])))).
  - exact quiet_never_throws.
  - left. reflexivity.
  - reflexivity.
Defined.

(** ** Lines that end in CR LF *)

Section CarriageReturn.

Lemma lex_trailing_cr s : forall m ts,
  lex m s = Some ts -> lex m (s ++ [13]) = Some ts.
Proof.
  induction s as [|c s IH]; intros m ts.
  - cbn [app lex]. unfold lex_end.
    destruct m as [| | | |st acc|]; try discriminate.
    + intros E. injection E as <-. reflexivity.
    + destruct (num_accepting st) eqn:Ha; [|discriminate].
      intros E. injection E as <-.
      unfold lex_step. rewrite Ha.
      destruct st; reflexivity.
  - cbn [app lex].
    destruct (lex_step m c) as [[toks m']|]; [|discriminate].
    destruct (lex m' s) as [more|] eqn:E; [|discriminate].
    intros E'. injection E' as <-.
    rewrite (IH m' more E). reflexivity.
Qed.

Lemma JSON_parse_trailing_cr s data :
  JSON_parse s = Some data -> JSON_parse (s ++ [13]) = Some data.
Proof.
  unfold JSON_parse.
  destruct (lex LDefault s) as [ts|] eqn:E; [|discriminate].
  rewrite (lex_trailing_cr s LDefault ts E). auto.
Qed.

Lemma startsWith_app l x p : startsWith l p = true -> startsWith (l ++ x) p = true.
Proof.
  revert l. induction p as [|c p IH]; intros l; [destruct (l ++ x); reflexivity|].
  destruct l as [|a l]; [discriminate|]. cbn [app startsWith].
  intros E. apply andb_prop in E. destruct E as [-> E]. apply IH. assumption.
Qed.

Lemma startsWith_length l p : startsWith l p = true -> (List.length p <= List.length l)%nat.
Proof.
  revert l. induction p as [|c p IH]; intros l; cbn [List.length]; [intros; apply Nat.le_0_l|].
  destruct l as [|a l]; [discriminate|]. cbn [startsWith List.length].
  intros E. apply andb_prop in E. destruct E as [_ E].
  apply le_n_S, IH. assumption.
Qed.

(** X5: a frame line that ends in a carriage return (a stream that
    terminates its lines with CR LF) is dispatched exactly as the same line
    without it. *)
Theorem carriage_return_before_line_feed h s line data :
  startsWith line (lit "data: ") = true ->
  JSON_parse (slice 6 line) = Some data ->
  process_line h s (line ++ [13]) = process_line h s line.
Proof.
  intros Hp Hd.
  rewrite (process_line_frame h s line data Hp Hd).
  apply process_line_frame.
  - apply startsWith_app. assumption.
  - unfold slice. rewrite skipn_app.
    apply startsWith_length in Hp. cbn [lit List.length map list_ascii_of_string] in Hp.
    replace (6 - List.length line)%nat with 0%nat by lia.
    cbn [skipn]. apply JSON_parse_trailing_cr. assumption.
Qed.

Lemma carriage_return_before_line_feed_witness :
  process_line quiet start
    (wire_text "data: {'type':'progress','status':'Done'}" ++ [13])
  = process_line quiet start (wire_text "data: {'type':'progress','status':'Done'}").
Proof.
  apply (carriage_return_before_line_feed quiet start _
           (JObj [(lit "type", JStr (lit "progress")); (lit "status", JStr (lit "Done"))]));
    reflexivity.
Defined.

End CarriageReturn.

(** * The request wrappers *)

(** ** The query of a stock search *)

Section UriFacts.

Import Utf8 Uri.

#[local] Ltac Zify.zify_post_hook ::= Z.to_euclidean_division_equations.

Lemma percent_component b : forallb component_char (percent b) = true.
Proof. destruct b; reflexivity. Qed.

Lemma escape_component cp : forallb component_char (escape cp) = true.
Proof.
  unfold escape. induction (encode cp) as [|b bs IH]; [reflexivity|].
  change (flat_map percent (b :: bs)) with (percent b ++ flat_map percent bs).
  rewrite forallb_app. rewrite percent_component. exact IH.
Qed.

Lemma by_length {A} (P : list A -> Prop) :
  (forall s, (forall t, (List.length t < List.length s)%nat -> P t) -> P s) ->
  forall s, P s.
Proof.
  intros H s. remember (List.length s) as n eqn:E. revert s E.
  induction n as [n IH] using lt_wf_ind. intros s ->.
  apply H. intros t Ht. apply (IH (List.length t) Ht t eq_refl).
Qed.

Lemma encodeURIComponent_component s : forall e,
  encodeURIComponent s = Some e -> forallb component_char e = true.
Proof.
  induction s as [s IH] using by_length. intros e.
  destruct s as [|c rest]; cbn [encodeURIComponent].
  - intros E. injection E as <-. reflexivity.
  - destruct (unreserved c) eqn:Hu.
    + destruct (encodeURIComponent rest) as [e'|] eqn:E'; [|discriminate].
      intros E. injection E as <-. cbn [forallb].
      unfold component_char at 1. rewrite Hu. cbn [orb andb].
      apply (IH rest); [cbn; lia | assumption].
    + destruct (is_high c).
      * destruct rest as [|d rest']; [discriminate|].
        destruct (is_low d); [|discriminate].
        destruct (encodeURIComponent rest') as [e'|] eqn:E'; [|discriminate].
        intros E. injection E as <-.
        rewrite forallb_app, escape_component. cbn [andb].
        apply (IH rest'); [cbn; lia | assumption].
      * destruct (is_low c); [discriminate|].
        destruct (encodeURIComponent rest) as [e'|] eqn:E'; [|discriminate].
        intros E. injection E as <-.
        rewrite forallb_app, escape_component. cbn [andb].
        apply (IH rest); [cbn; lia | assumption].
Qed.

Lemma percent_decode_percent b e :
  percent_decode (percent b ++ e) = option_map (cons b) (percent_decode e).
Proof. destruct b; reflexivity. Qed.

Lemma percent_decode_escape cp e :
  percent_decode (escape cp ++ e)
  = option_map (app (encode cp)) (percent_decode e).
Proof.
  unfold escape. induction (encode cp) as [|b bs IH].
  - cbn [flat_map app]. destruct (percent_decode e); reflexivity.
  - change (flat_map percent (b :: bs)) with (percent b ++ flat_map percent bs).
    rewrite <- app_assoc, percent_decode_percent, IH.
    destruct (percent_decode e); reflexivity.
Qed.

Lemma unreserved_ascii c : unreserved c = true -> c < 128 /\ c <> 37.
Proof.
  unfold unreserved. intros H.
  repeat (apply orb_prop in H; destruct H as [H|H]);
    try (apply andb_prop in H; destruct H as [H1 H2];
         apply N.leb_le in H1; apply N.leb_le in H2; lia);
    apply N.eqb_eq in H; lia.
Qed.

Lemma decode_idle_app a b :
  snd (decode idle a) = idle ->
  decode idle (a ++ b)
  = (fst (decode idle a) ++ fst (decode idle b), snd (decode idle b)).
Proof.
  intros Ha. rewrite decode_app.
  destruct (decode idle a) as [t1 d1]. cbn [fst snd] in *. subst d1.
  destruct (decode idle b) as [t2 d2]. reflexivity.
Qed.

Lemma utf16_pair c d :
  is_high c = true -> is_low d = true ->
  utf16 (65536 + (c - 55296) * 1024 + (d - 56320)) = [c; d]
  /\ is_scalar (65536 + (c - 55296) * 1024 + (d - 56320)) = true.
Proof.
  unfold is_high, is_low, utf16, is_scalar. intros Hc Hd.
  apply andb_prop in Hc. destruct Hc as [Hc1 Hc2].
  apply andb_prop in Hd. destruct Hd as [Hd1 Hd2].
  apply N.leb_le in Hc1, Hc2, Hd1, Hd2.
  set (cp := 65536 + (c - 55296) * 1024 + (d - 56320)).
  assert (Hcp : 65536 <= cp < 1114112) by (unfold cp; lia).
  split.
  - destruct (N.ltb_spec cp 65536); [lia|].
    rewrite N.shiftr_div_pow2. change 1023 with (N.ones 10). rewrite N.land_ones.
    change (2 ^ 10) with 1024.
    f_equal; [|f_equal]; unfold cp; lia.
  - destruct (N.ltb_spec cp 55296); [lia|].
    destruct (N.leb_spec 57344 cp); [|lia].
    destruct (N.ltb_spec cp 1114112); [reflexivity | lia].
Qed.

Lemma utf16_unit c :
  c < 65536 -> is_high c = false -> is_low c = false ->
  utf16 c = [c] /\ is_scalar c = true.
Proof.
  unfold is_high, is_low, utf16, is_scalar. intros Hc Hh Hl.
  destruct (N.ltb_spec c 65536); [|lia]. split; [reflexivity|].
  destruct (N.ltb_spec c 55296); [reflexivity|].
  destruct (N.leb_spec 55296 c); [|lia]. cbn [andb] in Hh.
  destruct (N.leb_spec c 56319); [discriminate|].
  destruct (N.leb_spec 56320 c); [|lia]. cbn [andb] in Hl.
  destruct (N.leb_spec c 57343); [discriminate|].
  destruct (N.leb_spec 57344 c); [|lia].
  destruct (N.ltb_spec c 1114112); [reflexivity | lia].
Qed.

Lemma encodeURIComponent_round_trip s : forall e,
  sixteen_bit s ->
  encodeURIComponent s = Some e ->
  exists octets,
    percent_decode e = Some octets
    /\ decode idle octets = (s, idle).
Proof.
  induction s as [s IH] using by_length. intros e Hs.
  destruct s as [|c rest]; cbn [encodeURIComponent].
  - intros E. injection E as <-. exists []. split; reflexivity.
  - inversion Hs as [|? ? Hc Hrest]; subst.
    destruct (unreserved c) eqn:Hu.
    + destruct (encodeURIComponent rest) as [e'|] eqn:E'; [|discriminate].
      intros E. injection E as <-.
      destruct (IH rest ltac:(cbn; lia) e' Hrest E') as [octets [Hd Hr]].
      apply unreserved_ascii in Hu. destruct Hu as [Hlt Hne].
      exists (to_byte c :: octets). split.
      * cbn [percent_decode]. destruct (N.eqb_spec c 37); [contradiction|].
        rewrite Hd. reflexivity.
      * cbn [decode]. rewrite step_ascii by assumption. rewrite Hr. reflexivity.
    + destruct (is_high c) eqn:Hh.
      * destruct rest as [|d rest']; [discriminate|].
        destruct (is_low d) eqn:Hl; [|discriminate].
        destruct (encodeURIComponent rest') as [e'|] eqn:E'; [|discriminate].
        intros E. injection E as <-.
        inversion Hrest as [|? ? Hd' Hrest']; subst.
        destruct (IH rest' ltac:(cbn; lia) e' Hrest' E') as [octets [Hd Hr]].
        destruct (utf16_pair c d Hh Hl) as [Hu16 Hsc].
        exists (encode (65536 + (c - 55296) * 1024 + (d - 56320)) ++ octets). split.
        -- rewrite percent_decode_escape, Hd. reflexivity.
        -- pose proof (decode_encode _ Hsc) as He.
           rewrite decode_idle_app by (rewrite He; reflexivity).
           rewrite He, Hr, Hu16. reflexivity.
      * destruct (is_low c) eqn:Hl; [discriminate|].
        destruct (encodeURIComponent rest) as [e'|] eqn:E'; [|discriminate].
        intros E. injection E as <-.
        destruct (IH rest ltac:(cbn; lia) e' Hrest E') as [octets [Hd Hr]].
        destruct (utf16_unit c Hc Hh Hl) as [Hu16 Hsc].
        exists (encode c ++ octets). split.
        -- rewrite percent_decode_escape, Hd. reflexivity.
        -- pose proof (decode_encode _ Hsc) as He.
           rewrite decode_idle_app by (rewrite He; reflexivity).
           rewrite He, Hr, Hu16. reflexivity.
Qed.

End UriFacts.

(** ** What the wrappers resolve with *)

Section Wrappers.

Import Uri Api.

Variable srv : server.

Lemma guarded_truthy r label dflt :
  truthy (Val dflt) = true -> truthy (result (guarded srv r label dflt)) = true.
Proof.
  intros Hd. unfold guarded.
  destruct (srv r) as [|body]; [assumption|].
  destruct (data_of body) as [v|]; [|assumption].
  cbn [result]. unfold or_else. destruct (truthy v) eqn:E; assumption.
Qed.

Lemma guarded_unhelpful r label dflt :
  unhelpful (srv r) -> result (guarded srv r label dflt) = Val dflt.
Proof.
  unfold guarded, unhelpful.
  destruct (srv r) as [|body]; [reflexivity|].
  destruct (data_of body) as [v|]; [|reflexivity].
  intros E. cbn [result]. unfold or_else. rewrite E. reflexivity.
Qed.

(** X6: a stock search issues at most one request, a GET whose query
    component is made of unreserved characters and percent escapes only,
    and from which the query typed by the user can be read back: its
    percent-decoded octets are the UTF-8 form of the query. *)
Theorem searchStocks_query_is_escaped_and_lossless query :
  sixteen_bit query ->
  requests (searchStocks srv query) = []
  \/ exists q octets,
       requests (searchStocks srv query) = [Get (lit "/stocks/search?q=" ++ q)]
       /\ forallb component_char q = true
       /\ percent_decode q = Some octets
       /\ Utf8.decode Utf8.idle octets = (query, Utf8.idle).
Proof.
  intros Hq. unfold searchStocks.
  destruct (encodeURIComponent query) as [q|] eqn:E; [|left; reflexivity].
  right.
  destruct (encodeURIComponent_round_trip query q Hq E) as [octets [Hd Hr]].
  exists q, octets. split; [|split; [|split]]; try assumption.
  - unfold guarded. destruct (srv _) as [|body]; [reflexivity|].
    destruct (data_of body); reflexivity.
  - apply (encodeURIComponent_component query). assumption.
Qed.

Lemma high_not_low c : is_high c = true -> is_low c = false.
Proof.
  unfold is_high, is_low. intros H. apply andb_prop in H. destruct H as [_ H].
  apply N.leb_le in H. apply andb_false_iff. left. apply N.leb_gt. lia.
Qed.

Lemma surrogate_reserved c :
  is_high c = true \/ is_low c = true -> unreserved c = false.
Proof.
  intros H. destruct (unreserved c) eqn:Hu; [|reflexivity].
  apply unreserved_ascii in Hu. destruct Hu as [Hu _].
  unfold is_low, is_high in H.
  destruct H as [H|H]; apply andb_prop in H; destruct H as [H _];
    apply N.leb_le in H; lia.
Qed.

Lemma lone_surrogate_tail x before c after :
  before <> [] -> lone_surrogate (x :: before) c after ->
  lone_surrogate before c after.
Proof.
  intros Hb [H|[H1 H2]]; [left; assumption|]. right. split; [assumption|].
  destruct before as [|y before]; [contradiction|]. exact H2.
Qed.

(** Wherever a surrogate without a partner stands, [encodeURIComponent]
    throws. *)
Lemma encodeURIComponent_lone_surrogate before : forall c after,
  lone_surrogate before c after ->
  encodeURIComponent (before ++ c :: after) = None.
Proof.
  induction before as [before IH] using by_length. intros c after Hc.
  assert (Hl0 : is_high (last [] 0) = false) by reflexivity.
  destruct before as [|x before]; cbn [app encodeURIComponent].
  - rewrite surrogate_reserved by (destruct Hc as [[H _]|[H _]]; auto).
    destruct Hc as [[Hc Ha]|[Hc _]].
    + rewrite Hc. destruct after as [|d after]; [reflexivity|].
      rewrite Ha. reflexivity.
    + destruct (is_high c) eqn:Hh; [|rewrite Hc; reflexivity].
      apply high_not_low in Hh. congruence.
  - assert (Hrest : encodeURIComponent (before ++ c :: after) = None).
    { destruct before as [|y before].
      - apply (IH []); [cbn [List.length]; lia|].
        destruct Hc as [H|[H1 H2]]; [left; assumption|]. right. auto.
      - apply IH; [cbn [List.length]; lia|].
        apply (lone_surrogate_tail x); [discriminate | assumption]. }
    destruct (unreserved x); [rewrite Hrest; reflexivity|].
    destruct (is_high x) eqn:Hx.
    + destruct before as [|y before]; cbn [app].
      * destruct Hc as [[Hc _]|[_ Hc]].
        -- rewrite (high_not_low c Hc). reflexivity.
        -- cbn [last] in Hc. congruence.
      * destruct (is_low y) eqn:Hy; [|reflexivity].
        rewrite IH; [reflexivity | cbn [List.length]; lia |].
        destruct before as [|z before].
        -- destruct Hc as [H|[H1 H2]]; [left; assumption|]. right. auto.
        -- apply (lone_surrogate_tail y); [discriminate|].
           apply (lone_surrogate_tail x); [discriminate | assumption].
    + destruct (is_low x); [reflexivity|]. rewrite Hrest. reflexivity.
Qed.

(** And [encodeURIComponent] throws on nothing else. *)
Lemma encodeURIComponent_throws_on_lone_surrogates_only query :
  encodeURIComponent query = None ->
  exists before c after,
    query = before ++ c :: after /\ lone_surrogate before c after.
Proof.
  induction query as [query IH] using by_length.
  assert (Hlast : forall x before,
             is_high x = false ->
             is_high (last before 0) = false ->
             is_high (last (x :: before) 0) = false).
  { intros x [|y before] Hx Hb; [exact Hx | exact Hb]. }
  assert (Step : forall x rest,
             is_high x = false ->
             (List.length rest < List.length query)%nat ->
             encodeURIComponent rest = None ->
             exists before c after,
               x :: rest = before ++ c :: after /\ lone_surrogate before c after).
  { intros x rest Hx Hlen E.
    destruct (IH rest Hlen E) as [before [c [after [-> Hc]]]].
    exists (x :: before), c, after. split; [reflexivity|].
    destruct Hc as [H|[H1 H2]]; [left; assumption|]. right. auto. }
  destruct query as [|x rest]; cbn [encodeURIComponent]; [discriminate|].
  destruct (unreserved x) eqn:Hu.
  - intros E. destruct (encodeURIComponent rest) eqn:Er; [discriminate|].
    apply Step; [|cbn [List.length]; lia|assumption].
    destruct (is_high x) eqn:Hx; [|reflexivity].
    rewrite surrogate_reserved in Hu by auto. discriminate.
  - destruct (is_high x) eqn:Hx.
    + destruct rest as [|d rest].
      * intros _. exists [], x, []. split; [reflexivity|]. left. auto.
      * destruct (is_low d) eqn:Hd.
        -- intros E. destruct (encodeURIComponent rest) eqn:Er; [discriminate|].
           destruct (IH rest) as [before [c [after [-> Hc]]]];
             [cbn [List.length]; lia | assumption |].
           exists (x :: d :: before), c, after. split; [reflexivity|].
           destruct Hc as [H|[H1 H2]]; [left; assumption|]. right.
           split; [assumption|].
           destruct before as [|y before]; [|exact H2].
           cbn [last]. destruct (is_high d) eqn:Hh; [|reflexivity].
           apply high_not_low in Hh. congruence.
        -- intros _. exists [], x, (d :: rest). split; [reflexivity|]. left. auto.
    + destruct (is_low x) eqn:Hl.
      * intros _. exists [], x, rest. split; [reflexivity|]. right. auto.
      * intros E. destruct (encodeURIComponent rest) eqn:Er; [discriminate|].
        apply Step; [assumption | cbn [List.length]; lia | assumption].
Qed.

(** X7: a query with a surrogate that has no partner, wherever it stands
    in the query, never reaches the server: [encodeURIComponent] throws
    inside the [try], no request is issued, the error is logged and the
    search resolves with [[]]. *)
Theorem searchStocks_malformed_query_is_not_sent before c after :
  lone_surrogate before c after ->
  searchStocks srv (before ++ c :: after)
  = {| requests := []; logs := ["Error searching stocks:"%string];
       result := Val (JArr []) |}.
Proof.
  intros Hc. unfold searchStocks.
  rewrite (encodeURIComponent_lone_surrogate before c after Hc). reflexivity.
Qed.

(** Every other query is sent: a search that issues no request was given
    a query with a surrogate that has no partner. *)
Lemma searchStocks_sends_every_well_formed_query query :
  requests (searchStocks srv query) = [] ->
  exists before c after,
    query = before ++ c :: after /\ lone_surrogate before c after.
Proof.
  unfold searchStocks. intros H.
  apply encodeURIComponent_throws_on_lone_surrogates_only.
  destruct (encodeURIComponent query) as [q|]; [|reflexivity].
  unfold guarded in H. destruct (srv _) as [|body]; [discriminate H|].
  destruct (data_of body); discriminate H.
Qed.

(** X8: the wrappers never reject and, [getCompanyFacts] apart, never
    resolve with [undefined], [null] or any other falsy value: whatever the
    server does, the caller gets the truthy [data] of the body or the
    wrapper's own default. [getCompanyFacts] resolves with [null] or with a
    truthy value. *)
Theorem wrappers_resolve_with_usable_values query provider tickers ticker :
  truthy (result (searchStocks srv query)) = true
  /\ truthy (result (getAvailableAnalysts srv)) = true
  /\ truthy (result (getAvailableProviders srv)) = true
  /\ truthy (result (getAvailableModels srv provider)) = true
  /\ truthy (result (checkOllamaStatus srv)) = true
  /\ truthy (result (checkLMStudioStatus srv)) = true
  /\ truthy (result (validateTickers srv tickers)) = true
  /\ (result (getCompanyFacts srv ticker) = Val JNull
      \/ truthy (result (getCompanyFacts srv ticker)) = true).
Proof.
  repeat match goal with |- _ /\ _ => split end;
    try (apply guarded_truthy; reflexivity).
  - unfold searchStocks. destruct (encodeURIComponent query); [|reflexivity].
    apply guarded_truthy. reflexivity.
  - unfold getCompanyFacts, guarded.
    destruct (srv _) as [|body]; [left; reflexivity|].
    destruct (data_of body) as [v|]; [|left; reflexivity].
    cbn [result]. unfold or_else. destruct (truthy v) eqn:E; auto.
Qed.

(** X9: when the validation request is rejected, or its body carries no
    truthy [data], every ticker that was asked about is reported invalid
    and none valid, in the order asked. *)
Theorem validateTickers_failure_marks_all_invalid tickers :
  unhelpful (srv (Post (lit "/stocks/validate")
                       (JObj [(lit "tickers", JArr (map JStr tickers))]))) ->
  exists answer,
    result (validateTickers srv tickers) = Val answer
    /\ get answer (lit "valid") = Some (Val (JArr []))
    /\ get answer (lit "invalid") = Some (Val (JArr (map JStr tickers))).
Proof.
  intros Hu. exists (all_invalid tickers). split.
  - apply guarded_unhelpful. assumption.
  - split; reflexivity.
Qed.

End Wrappers.

Section WrapperExamples.

Import Uri Api.

Lemma searchStocks_query_is_escaped_and_lossless_witness :
  requests (searchStocks no_server (lit "AT&T #1")) = []
  \/ exists q octets,
       requests (searchStocks no_server (lit "AT&T #1"))
       = [Get (lit "/stocks/search?q=" ++ q)]
       /\ forallb component_char q = true
       /\ percent_decode q = Some octets
       /\ Utf8.decode Utf8.idle octets = (lit "AT&T #1", Utf8.idle).
Proof.
  apply searchStocks_query_is_escaped_and_lossless.
  unfold sixteen_bit. repeat constructor.
Defined.

Example search_url :
  requests (searchStocks no_server (lit "AT&T #1" ++ [8364]))
  = [Get (lit "/stocks/search?q=AT%26T%20%231%E2%82%AC")].
Proof. reflexivity. Qed.

(** A pair, then a high surrogate that nothing follows. *)
Lemma searchStocks_malformed_query_is_not_sent_witness :
  searchStocks no_server ([55357; 56832] ++ 55357 :: [])
  = {| requests := []; logs := ["Error searching stocks:"%string];
       result := Val (JArr []) |}.
Proof.
  apply (searchStocks_malformed_query_is_not_sent no_server [55357; 56832] 55357 []).
  left. split; [reflexivity | exact I].
Defined.

Lemma validateTickers_failure_marks_all_invalid_witness :
  exists answer,
    result (validateTickers no_server [lit "AAPL"; lit "MSFT"]) = Val answer
    /\ get answer (lit "valid") = Some (Val (JArr []))
    /\ get answer (lit "invalid")
       = Some (Val (JArr (map JStr [lit "AAPL"; lit "MSFT"]))).
Proof.
  apply validateTickers_failure_marks_all_invalid. exact I.
Defined.

End WrapperExamples.

(** * The form and the state of the analysis *)

Section FormValidation.

Import App.

Lemma is_empty_false {A} (l : list A) : is_empty l = false <-> l <> [].
Proof. destruct l; simpl; split; congruence. Qed.

Lemma blank_false s : blank s = false <-> s <> [].
Proof. destruct s; simpl; split; congruence. Qed.

(** X10: [handleStartAnalysis] hands a request to [runAnalysis] exactly
    when a stock, an analyst, a provider and a model are selected; the
    request then names each selected stock once, in order, and the body
    that is posted has a non-empty [tickers] list. *)
Theorem handleStartAnalysis_starts_complete_forms_only f :
  (selectedStocks f <> [] /\ selectedAnalysts f <> []
   /\ selectedProvider f <> [] /\ selectedModel f <> []
   <-> snd (handleStartAnalysis f) = Some (analysisRequest f))
  /\ (forall req,
        snd (handleStartAnalysis f) = Some req ->
        Request.tickers req = map ticker (selectedStocks f)
        /\ Request.tickers req <> []
        /\ Request.selectedAnalysts req <> []
        /\ Request.field "tickers" (Request.request_body req)
           = Some (Request.WStrings (map ticker (selectedStocks f))))
  /\ (snd (handleStartAnalysis f) = None
      <-> keys (fst (handleStartAnalysis f)) <> []).
Proof.
  unfold handleStartAnalysis, validateForm, keys. cbn [stocks analysts provider model].
  destruct (selectedStocks f) as [|s0 ss] eqn:Es;
    destruct (selectedAnalysts f) as [|a0 aa] eqn:Ea;
    destruct (selectedProvider f) as [|p0 pp] eqn:Ep;
    destruct (selectedModel f) as [|m0 mm] eqn:Em;
    cbn [is_empty blank app List.length Nat.ltb Nat.leb fst snd];
    (split; [split; [intros [H1 [H2 [H3 H4]]]; try congruence; reflexivity
                    | intros H; try discriminate H; repeat split; discriminate]
            | split; [intros req H; try discriminate H
                     | split; [intros H; try discriminate H; discriminate
                              | intros H; try reflexivity; exfalso; apply H; reflexivity]]]).
  injection H as <-. unfold analysisRequest. cbn [Request.tickers Request.selectedAnalysts].
  rewrite Es, Ea. repeat split; discriminate.
Qed.

(** X11: the analysis panel and the application agree: the start button is
    enabled exactly when no run is active and [handleStartAnalysis] would
    start one, and the panel lists the very messages that [validateForm]
    stores, in the same order. *)
Theorem panel_agrees_with_validation f st :
  (start_enabled f st = true
   <-> snd (handleStartAnalysis f) = Some (analysisRequest f)
       /\ isRunning st = false)
  /\ getValidationErrors f = messages (validateForm f).
Proof.
  unfold start_enabled, canStartAnalysis, handleStartAnalysis, getValidationErrors,
    validateForm, keys, messages, and_then.
  cbn [stocks analysts provider model].
  destruct (selectedStocks f) as [|s0 ss];
    destruct (selectedAnalysts f) as [|a0 aa];
    destruct (selectedProvider f) as [|p0 pp];
    destruct (selectedModel f) as [|m0 mm];
    destruct (isRunning st);
    cbn [is_empty blank app List.length Nat.ltb Nat.leb fst snd negb truthy
         JsString.eqb];
    (split; [split; [intros H; try discriminate H; split; reflexivity
                    | intros [H1 H2]; try discriminate H1; try discriminate H2; reflexivity]
            | reflexivity]).
Qed.

End FormValidation.

(** ** The state of the application during and after a run *)

Section ApplicationState.

Import App.

Lemma callbacks_never_cancel : never_cancels callbacks.
Proof. intros past c. reflexivity. Qed.

Lemma callbacks_never_throw : never_throws callbacks.
Proof. intros past c. reflexivity. Qed.

(** Only the callbacks touch the progress, the result and the error. *)
Lemma fold_step_fields evs : forall st st',
  progress st = progress st' -> result st = result st' -> error st = error st' ->
  progress (fold_left step evs st) = progress (fold_left on_call (calls evs) st')
  /\ result (fold_left step evs st) = result (fold_left on_call (calls evs) st')
  /\ error (fold_left step evs st) = error (fold_left on_call (calls evs) st').
Proof.
  induction evs as [|ev evs IH]; intros st st' Hp Hr He; [auto|].
  destruct ev as [c| | |]; cbn [fold_left calls step]; try (apply IH; assumption).
  apply IH; destruct c; cbn [on_call progress result error]; congruence.
Qed.

Lemma fold_progress_only ps : forall st,
  progress_only ps ->
  progress (fold_left on_call ps st) = progress st ++ progress_payloads ps
  /\ result (fold_left on_call ps st) = result st
  /\ error (fold_left on_call ps st) = error st
  /\ isRunning (fold_left on_call ps st) = isRunning st.
Proof.
  induction ps as [|c ps IH]; intros st Hp; cbn [fold_left progress_payloads].
  - rewrite app_nil_r. auto.
  - inversion Hp as [|? ? Hc Hps]; subst.
    destruct c as [p| |]; try discriminate Hc.
    destruct (IH (on_call st (OnProgress p)) Hps) as [H1 [H2 [H3 H4]]].
    rewrite H1, H2, H3, H4. cbn [on_call progress result error isRunning].
    rewrite <- app_assoc. auto.
Qed.

Lemma fold_step_running evs : forall st,
  ~ In CancelCalled evs -> progress_only (calls evs) ->
  isRunning (fold_left step evs st) = isRunning st.
Proof.
  induction evs as [|ev evs IH]; intros st Hn Hp; [reflexivity|].
  cbn [fold_left].
  assert (Hn' : ~ In CancelCalled evs) by (intros F; apply Hn; right; assumption).
  destruct ev as [c| | |]; cbn [step calls] in *.
  - inversion Hp as [|? ? Hc Hps]; subst.
    rewrite (IH _ Hn' Hps). destruct c; try discriminate Hc. reflexivity.
  - exfalso. apply Hn. left. reflexivity.
  - apply IH; assumption.
  - apply IH; assumption.
Qed.

Lemma progress_payloads_app a b :
  progress_payloads (a ++ b) = progress_payloads a ++ progress_payloads b.
Proof.
  induction a as [|c a IH]; [reflexivity|].
  destruct c; cbn [app progress_payloads]; rewrite IH; reflexivity.
Qed.

(** X12: after a run started from the form, whatever the network did, the
    application holds in [progress] exactly the payloads handed to
    [onProgress], in order, and never holds both a result and an error: one
    of the two is still the [null] that [handleStartAnalysis] put there. *)
Theorem state_after_a_run request net :
  let evs := events (runAnalysis request callbacks net) in
  progress (after evs) = progress_payloads (calls evs)
  /\ (result (after evs) = Val JNull \/ error (after evs) = Val JNull).
Proof.
  unfold runAnalysis.
  pose proof (returning_callbacks_single_terminal callbacks callbacks_never_throw net) as Hs.
  destruct (runStream callbacks net) as [evs p]. cbn [events fst] in *.
  destruct (fold_step_fields evs started started eq_refl eq_refl eq_refl)
    as [Hp [Hr He]].
  unfold after. rewrite Hp, Hr, He.
  destruct Hs as [ps [t [E [Hps Ht]]]]. rewrite E, fold_left_app.
  destruct (fold_progress_only ps started Hps) as [H1 [H2 [H3 _]]].
  destruct Ht as [->|[c [-> Hc]]].
  - cbn [fold_left]. rewrite H1, H2, app_nil_r. auto.
  - cbn [fold_left]. rewrite progress_payloads_app.
    destruct c as [d|r|e]; try discriminate Hc;
      cbn [on_call progress result error progress_payloads];
      rewrite H1, ?H2, ?H3, app_nil_r; auto.
Qed.

(** X13: when the server closes the stream without ever sending a
    [complete] or [error] frame and nobody cancels, the application is left
    as it was while the run went on: still marked running, with no result
    and no error. *)
Theorem silent_stream_end_leaves_the_run_marked_running request items :
  forallb is_chunk items = true ->
  Forall (fun l => terminal_frame l = false)
         (complete_lines (received Utf8.fresh items)) ->
  let st := after (events (runAnalysis request callbacks (streaming items Done))) in
  isRunning st = true /\ result st = Val JNull /\ error st = Val JNull
  /\ promise (runAnalysis request callbacks (streaming items Done)) = Fulfilled.
Proof.
  intros Hc Hl. unfold runAnalysis, runStream, streaming.
  cbn [cancel_first fetched negb].
  pose proof (read_loop_nonterminal callbacks items Done Utf8.fresh [] start Hl) as H.
  destruct (read_loop callbacks Utf8.fresh [] start items Done) as [[ev s] x] eqn:E.
  apply (read_loop_keeps_aborted callbacks) in E;
    [|exact callbacks_never_cancel|assumption].
  destruct E as [Ha Hn]. destruct H as [Hp Hx].
  rewrite Ha in Hx. cbn [start aborted end_exit] in Hx. subst x.
  cbn [events promise]. split; [|split; [|split]]; try reflexivity.
  - unfold after. rewrite (fold_step_running ev started Hn Hp). reflexivity.
  - destruct (fold_step_fields ev started started eq_refl eq_refl eq_refl)
      as [_ [Hr _]].
    unfold after. rewrite Hr.
    destruct (fold_progress_only (calls ev) started Hp) as [_ [H2 _]]. exact H2.
  - destruct (fold_step_fields ev started started eq_refl eq_refl eq_refl)
      as [_ [_ He]].
    unfold after. rewrite He.
    destruct (fold_progress_only (calls ev) started Hp) as [_ [_ [H3 _]]]. exact H3.
Qed.

(** Two progress frames, half a line, and the end of the stream. *)
Lemma silent_stream_end_leaves_the_run_marked_running_witness :
  let st :=
    after (events (runAnalysis
                     (analysisRequest
                        {| selectedStocks :=
                             [{| ticker := lit "AAPL"; name := lit "Apple Inc.";
                                 exchange := None; sector := None; industry := None |}];
                           selectedAnalysts := [lit "warren_buffett"];
                           selectedProvider := lit "OpenAI";
                           selectedModel := lit "gpt-4o";
                           startDate := lit "2024-01-01";
                           endDate := lit "2024-03-31";
                           initialCash := 100000;
                           marginRequirement := 0 |})
                     callbacks
                     (streaming
                        [Chunk (wire_bytes "data: {'type':'progress'}|data: {'type':'progress'}|da")]
                        Done))) in
  isRunning st = true /\ result st = Val JNull /\ error st = Val JNull
  /\ promise (runAnalysis
                (analysisRequest
                   {| selectedStocks :=
                        [{| ticker := lit "AAPL"; name := lit "Apple Inc.";
                            exchange := None; sector := None; industry := None |}];
                      selectedAnalysts := [lit "warren_buffett"];
                      selectedProvider := lit "OpenAI";
                      selectedModel := lit "gpt-4o";
                      startDate := lit "2024-01-01";
                      endDate := lit "2024-03-31";
                      initialCash := 100000;
                      marginRequirement := 0 |})
                callbacks
                (streaming
                   [Chunk (wire_bytes "data: {'type':'progress'}|data: {'type':'progress'}|da")]
                   Done)) = Fulfilled.
Proof.
  apply silent_stream_end_leaves_the_run_marked_running.
  - reflexivity.
  - vm_compute. repeat constructor.
Defined.

Lemma split_is_unique (A B before after : list event) :
  ~ In CancelCalled A -> ~ In CancelCalled B ->
  before ++ CancelCalled :: after = A ++ CancelCalled :: B ->
  before = A /\ after = B.
Proof.
  intros HA HB. revert A HA.
  induction before as [|e before IH]; intros A HA E.
  - destruct A as [|a A]; cbn [app] in E.
    + injection E as <-. auto.
    + injection E as <- _. exfalso. apply HA. left. reflexivity.
  - destruct A as [|a A]; cbn [app] in E.
    + injection E as -> E. exfalso. apply HB. rewrite <- E. apply in_elt.
    + injection E as -> E.
      destruct (IH A) as [-> ->]; [|assumption|auto].
      intros F. apply HA. right. assumption.
Qed.

(** With callbacks that leave the handle alone, a run either sees no
    cancellation, or ends right at the one it sees. *)
Lemma run_cancel_shape h net :
  never_cancels h ->
  ~ In CancelCalled (fst (runStream h net))
  \/ exists A,
       fst (runStream h net) = A ++ CancelCalled :: [ConsoleLog cancelled_label]
       /\ ~ In CancelCalled A.
Proof.
  intros Hh. unfold runStream. destruct net as [first fetched].
  cbn [cancel_first Stream.fetched].
  destruct first.
  - rewrite catch_abort. right. exists []. split; [reflexivity | intros []].
  - destruct fetched as [|e|ok status body].
    + left. intros [].
    + left. apply catch_no_cancel, Hh.
    + destruct ok; cbn [negb]; [|left; apply catch_no_cancel, Hh].
      destruct body as [[items fin]|]; [|left; apply catch_no_cancel, Hh].
      pose proof (read_loop_cancel_shape h items fin Utf8.fresh [] start Hh eq_refl) as H.
      destruct (read_loop h Utf8.fresh [] start items fin) as [[ev s] x].
      destruct H as [Hn|[A [-> [HA ->]]]].
      * left. destruct x as [| |e|]; cbn [fst]; try assumption.
        pose proof (catch_no_cancel h s e Hh) as Hc.
        destruct (catch h s e) as [ev2 p]. cbn [fst] in *.
        rewrite in_app_iff. tauto.
      * right. exists A. rewrite catch_abort. cbn [fst].
        rewrite <- app_assoc. split; [reflexivity | assumption].
Qed.

(** X14: when the user cancels, the application stops showing the run as
    active, and from then on nothing the server sends changes what it
    shows: the state after the whole run is the state [handleCancelAnalysis]
    left. *)
Theorem cancelled_run_leaves_the_state_alone request net before later :
  events (runAnalysis request callbacks net) = before ++ CancelCalled :: later ->
  after (events (runAnalysis request callbacks net))
  = handleCancelAnalysis (after before)
  /\ isRunning (after (events (runAnalysis request callbacks net))) = false.
Proof.
  unfold runAnalysis.
  pose proof (run_cancel_shape callbacks net callbacks_never_cancel) as H.
  destruct (runStream callbacks net) as [evs p]. cbn [events fst] in *.
  intros E. destruct H as [Hn|[A [EA HA]]].
  - exfalso. apply Hn. rewrite E. apply in_elt.
  - rewrite E in EA.
    apply split_is_unique in EA; [|assumption|intros [F|[]]; discriminate F].
    destruct EA as [-> ->]. rewrite E. unfold after.
    rewrite fold_left_app. cbn [fold_left step]. split; reflexivity.
Qed.

(** A progress frame, the user's cancellation, and a result that arrives
    too late. *)
Lemma cancelled_run_leaves_the_state_alone_witness :
  after (events (runAnalysis
                   (analysisRequest
                      {| selectedStocks := []; selectedAnalysts := [];
                         selectedProvider := []; selectedModel := [];
                         startDate := []; endDate := [];
                         initialCash := 100000; marginRequirement := 0 |})
                   callbacks
                   (streaming
                      [Chunk (wire_bytes "data: {'type':'progress'}|"); CancelCall;
                       Chunk (wire_bytes "data: {'type':'complete','result':{}}|")]
                      Done)))
  = handleCancelAnalysis
      (after [Call (OnProgress (JObj [(lit "type", JStr (lit "progress"))]))])
  /\ isRunning
       (after (events (runAnalysis
                   (analysisRequest
                      {| selectedStocks := []; selectedAnalysts := [];
                         selectedProvider := []; selectedModel := [];
                         startDate := []; endDate := [];
                         initialCash := 100000; marginRequirement := 0 |})
                   callbacks
                   (streaming
                      [Chunk (wire_bytes "data: {'type':'progress'}|"); CancelCall;
                       Chunk (wire_bytes "data: {'type':'complete','result':{}}|")]
                      Done)))) = false.
Proof.
  apply (cancelled_run_leaves_the_state_alone _ _ _ [ConsoleLog cancelled_label]).
  reflexivity.
Defined.

End ApplicationState.

(** ** The stock selector *)

Section StockSelection.

Import App StockSelector.

Lemma is_selected_In selectedStocks stock :
  is_selected selectedStocks stock = true
  <-> In (ticker stock) (map ticker selectedStocks).
Proof.
  unfold is_selected. rewrite existsb_exists, in_map_iff.
  split; intros [x [H1 H2]]; exists x.
  - apply jsstring_eqb_eq in H2. auto.
  - split; [assumption|]. apply jsstring_eqb_eq. assumption.
Qed.

Lemma shown_not_selected selectedStocks stock :
  (exists results, In stock (filteredResults selectedStocks results))
  <-> ~ In (ticker stock) (map ticker selectedStocks).
Proof.
  rewrite <- is_selected_In. unfold filteredResults. split.
  - intros [results H]. apply filter_In in H. destruct H as [_ H].
    intros E. rewrite E in H. discriminate H.
  - intros H. exists [stock]. apply filter_In. split; [left; reflexivity|].
    destruct (is_selected selectedStocks stock); [exfalso; auto | reflexivity].
Qed.

Lemma handleStockRemove_length selectedStocks t :
  (List.length (handleStockRemove selectedStocks t)
   <= List.length selectedStocks)%nat.
Proof.
  unfold handleStockRemove.
  induction selectedStocks as [|s l IH]; cbn [filter List.length]; [lia|].
  destruct (negb _); cbn [List.length]; lia.
Qed.

Lemma perform_bounded maxSelections selectedStocks a :
  (List.length selectedStocks <= maxSelections)%nat ->
  (List.length (perform maxSelections selectedStocks a) <= maxSelections)%nat.
Proof.
  intros H. destruct a as [stock|t]; cbn [perform].
  - unfold handleStockSelect.
    destruct (Nat.leb_spec maxSelections (List.length selectedStocks)).
    + assumption.
    + rewrite length_app. cbn [List.length]. lia.
  - pose proof (handleStockRemove_length selectedStocks t). lia.
Qed.

(** X15: whatever the user selects and removes, and in whatever order, a
    selection that holds at most [maxSelections] stocks never comes to hold
    more. *)
Theorem selection_never_exceeds_maxSelections maxSelections actions :
  forall selectedStocks,
  (List.length selectedStocks <= maxSelections)%nat ->
  (List.length (fold_left (perform maxSelections) actions selectedStocks)
   <= maxSelections)%nat.
Proof.
  induction actions as [|a actions IH]; intros sel H; cbn [fold_left].
  - assumption.
  - apply IH, perform_bounded, H.
Qed.

Lemma handleStockRemove_NoDup selectedStocks t :
  NoDup (map ticker selectedStocks) ->
  NoDup (map ticker (handleStockRemove selectedStocks t)).
Proof.
  unfold handleStockRemove.
  induction selectedStocks as [|s l IH]; cbn [filter map]; intros H.
  - constructor.
  - inversion H as [|? ? Hn Hl]; subst.
    destruct (negb _); cbn [map]; [|auto].
    constructor; [|auto].
    intros F. apply Hn. apply in_map_iff in F. destruct F as [x [E F]].
    apply filter_In in F. apply in_map_iff. exists x. tauto.
Qed.

Lemma perform_distinct maxSelections selectedStocks a :
  NoDup (map ticker selectedStocks) ->
  match a with
  | Select stock => ~ In (ticker stock) (map ticker selectedStocks)
  | Remove _ => True
  end ->
  NoDup (map ticker (perform maxSelections selectedStocks a)).
Proof.
  intros H Ha. destruct a as [stock|t]; cbn [perform].
  - unfold handleStockSelect. destruct (_ <=? _)%nat; [assumption|].
    rewrite map_app. cbn [map]. apply NoDup_app_remove_l with (l := []).
    cbn [app]. apply NoDup_Add with (a := ticker stock) (l := map ticker selectedStocks).
    + rewrite <- (app_nil_r (map ticker selectedStocks)) at 1.
      apply Add_app.
    + split; assumption.
  - apply handleStockRemove_NoDup, H.
Qed.

(** X16: as long as every stock the user selects is taken from results
    filtered against the selection of that moment, no two selected stocks
    ever share a ticker. *)
Theorem selected_tickers_stay_distinct maxSelections actions :
  forall selectedStocks,
  NoDup (map ticker selectedStocks) ->
  picked_from_results maxSelections selectedStocks actions ->
  NoDup (map ticker (fold_left (perform maxSelections) actions selectedStocks)).
Proof.
  induction actions as [|a actions IH]; intros sel H Hp; cbn [fold_left].
  - assumption.
  - destruct Hp as [Ha Hp]. apply IH; [|assumption].
    apply perform_distinct; [assumption|].
    destruct a as [stock|t]; [|exact I].
    apply shown_not_selected. assumption.
Qed.

Lemma remove_absent selectedStocks t :
  ~ In t (map ticker selectedStocks) ->
  handleStockRemove selectedStocks t = selectedStocks.
Proof.
  unfold handleStockRemove.
  induction selectedStocks as [|s l IH]; cbn [filter map]; intros H.
  - reflexivity.
  - destruct (JsString.eqb (ticker s) t) eqn:E; cbn [negb].
    + exfalso. apply H. left. apply jsstring_eqb_eq. assumption.
    + f_equal. apply IH. intros F. apply H. right. assumption.
Qed.

(** X17: selecting one of the shown results and then removing its ticker
    gives back the selection as it was, in the same order. *)
Theorem removing_a_just_selected_stock_restores_the_selection
    maxSelections selectedStocks results stock stocks :
  In stock (filteredResults selectedStocks results) ->
  handleStockSelect maxSelections selectedStocks stock = Some stocks ->
  handleStockRemove stocks (ticker stock) = selectedStocks.
Proof.
  intros Hs. unfold handleStockSelect.
  destruct (_ <=? _)%nat; [discriminate|]. intros E. injection E as <-.
  unfold handleStockRemove. rewrite filter_app. cbn [filter].
  assert (R : JsString.eqb (ticker stock) (ticker stock) = true)
    by (apply jsstring_eqb_eq; reflexivity).
  rewrite R. cbn [negb]. rewrite app_nil_r.
  apply remove_absent. apply shown_not_selected. exists results. assumption.
Qed.

End StockSelection.

Section StockSelectionExamples.

Import App StockSelector.

(** With room for two stocks: a third selection is dropped, and a removal
    makes room again. *)
Lemma selection_never_exceeds_maxSelections_witness :
  (List.length
     (fold_left (perform 2)
        [Select {| ticker := lit "AAPL"; name := lit "Apple Inc.";
                   exchange := None; sector := None; industry := None |};
         Select {| ticker := lit "MSFT"; name := lit "Microsoft";
                   exchange := None; sector := None; industry := None |};
         Select {| ticker := lit "NVDA"; name := lit "NVIDIA";
                   exchange := None; sector := None; industry := None |};
         Remove (lit "AAPL");
         Select {| ticker := lit "TSLA"; name := lit "Tesla";
                   exchange := None; sector := None; industry := None |}]
        [])
   <= 2)%nat.
Proof.
  apply selection_never_exceeds_maxSelections. cbn [List.length]. lia.
Defined.

Lemma selected_tickers_stay_distinct_witness :
  NoDup
    (map ticker
       (fold_left (perform 5)
          [Select {| ticker := lit "MSFT"; name := lit "Microsoft";
                     exchange := None; sector := None; industry := None |};
           Remove (lit "AAPL");
           Select {| ticker := lit "AAPL"; name := lit "Apple";
                     exchange := None; sector := None; industry := None |}]
          [{| ticker := lit "AAPL"; name := lit "Apple Inc.";
              exchange := None; sector := None; industry := None |}])).
Proof.
  apply selected_tickers_stay_distinct.
  - cbn [map]. constructor; [intros []|constructor].
  - cbn [picked_from_results]. split; [|split; [|split]]; try exact I.
    + exists [{| ticker := lit "MSFT"; name := lit "Microsoft";
                 exchange := None; sector := None; industry := None |}].
      vm_compute. left. reflexivity.
    + exists [{| ticker := lit "AAPL"; name := lit "Apple";
                 exchange := None; sector := None; industry := None |}].
      vm_compute. left. reflexivity.
Defined.

Lemma removing_a_just_selected_stock_restores_the_selection_witness :
  handleStockRemove
    [{| ticker := lit "AAPL"; name := lit "Apple Inc.";
        exchange := None; sector := None; industry := None |};
     {| ticker := lit "MSFT"; name := lit "Microsoft";
        exchange := None; sector := None; industry := None |}]
    (lit "MSFT")
  = [{| ticker := lit "AAPL"; name := lit "Apple Inc.";
        exchange := None; sector := None; industry := None |}].
Proof.
  apply (removing_a_just_selected_stock_restores_the_selection 5
           [{| ticker := lit "AAPL"; name := lit "Apple Inc.";
               exchange := None; sector := None; industry := None |}]
           [{| ticker := lit "AAPL"; name := lit "Apple Inc.";
               exchange := None; sector := None; industry := None |};
            {| ticker := lit "MSFT"; name := lit "Microsoft";
               exchange := None; sector := None; industry := None |}]
           {| ticker := lit "MSFT"; name := lit "Microsoft";
              exchange := None; sector := None; industry := None |}).
  - vm_compute. left. reflexivity.
  - reflexivity.
Defined.

End StockSelectionExamples.

(** ** The analyst selector *)

Section AnalystSelection.

Import AnalystSelector.

Lemma includes_In l x : includes l x = true <-> In x l.
Proof.
  unfold includes. rewrite existsb_exists. split.
  - intros [y [H E]]. apply jsstring_eqb_eq in E. subst. assumption.
  - intros H. exists x. split; [assumption|]. apply jsstring_eqb_eq. reflexivity.
Qed.

Lemma eqb_false a b : JsString.eqb a b = false <-> a <> b.
Proof.
  split.
  - intros E F. apply jsstring_eqb_eq in F. congruence.
  - intros F. destruct (JsString.eqb a b) eqn:E; [|reflexivity].
    apply jsstring_eqb_eq in E. contradiction.
Qed.

(** X18: a toggle flips the selection of the analyst it names and of no
    other: the named analyst is selected afterwards exactly when it was not
    before, and every other id is selected afterwards exactly when it was
    before. *)
Theorem toggle_flips_one_analyst selectedAnalysts analystId other :
  (In analystId (handleAnalystToggle selectedAnalysts analystId)
   <-> ~ In analystId selectedAnalysts)
  /\ (other <> analystId ->
      (In other (handleAnalystToggle selectedAnalysts analystId)
       <-> In other selectedAnalysts)).
Proof.
  unfold handleAnalystToggle.
  destruct (includes selectedAnalysts analystId) eqn:E.
  - apply includes_In in E. split.
    + rewrite filter_In. split; [|tauto].
      intros [_ H]. apply negb_true_iff, eqb_false in H. congruence.
    + intros Ho. rewrite filter_In, negb_true_iff, eqb_false. tauto.
  - assert (Hn : ~ In analystId selectedAnalysts).
    { intros F. apply includes_In in F. congruence. }
    split.
    + rewrite in_app_iff. cbn [In]. tauto.
    + intros Ho. rewrite in_app_iff. cbn [In]. split; [|tauto].
      intros [H|[H|[]]]; [assumption | congruence].
Qed.

Lemma toggle_NoDup selectedAnalysts analystId :
  NoDup selectedAnalysts ->
  NoDup (handleAnalystToggle selectedAnalysts analystId).
Proof.
  intros H. unfold handleAnalystToggle.
  destruct (includes selectedAnalysts analystId) eqn:E.
  - apply NoDup_filter, H.
  - apply NoDup_app_remove_l with (l := []). cbn [app].
    apply NoDup_Add with (a := analystId) (l := selectedAnalysts).
    + rewrite <- (app_nil_r selectedAnalysts) at 1. apply Add_app.
    + split; [assumption|]. intros F. apply includes_In in F. congruence.
Qed.

Lemma preset_invariant ids analysts :
  NoDup (map id analysts) ->
  NoDup (preset ids analysts) /\ incl (preset ids analysts) (map id analysts).
Proof.
  unfold preset. intros H. split.
  - induction analysts as [|a l IH]; cbn [filter map]; [constructor|].
    cbn [map] in H. inversion H as [|? ? Hn Hl]; subst.
    destruct (includes ids (id a)); [|auto].
    cbn [map]. constructor; [|auto].
    intros F. apply Hn. apply in_map_iff in F. destruct F as [x [E F]].
    apply filter_In in F. apply in_map_iff. exists x. tauto.
  - intros x F. apply in_map_iff in F. destruct F as [a [E F]].
    apply filter_In in F. apply in_map_iff. exists a. tauto.
Qed.

Lemma perform_invariant analysts selectedAnalysts a :
  NoDup (map id analysts) ->
  NoDup selectedAnalysts -> incl selectedAnalysts (map id analysts) ->
  offered analysts selectedAnalysts a ->
  NoDup (perform analysts selectedAnalysts a)
  /\ incl (perform analysts selectedAnalysts a) (map id analysts).
Proof.
  intros Ha Hn Hi Ho.
  destruct a as [analystId| | | | |]; cbn [perform];
    try (apply preset_invariant; assumption).
  - split; [apply toggle_NoDup; assumption|].
    assert (Hid : In analystId (map id analysts)).
    { destruct Ho as [Ho|Ho]; [assumption | apply Hi, Ho]. }
    unfold handleAnalystToggle.
    destruct (includes selectedAnalysts analystId).
    + intros x F. apply filter_In in F. apply Hi. tauto.
    + intros x F. apply in_app_iff in F.
      destruct F as [F|[<-|[]]]; [apply Hi, F | assumption].
  - unfold handleSelectAll. destruct (_ =? _)%nat.
    + split; [constructor | intros x []].
    + split; [assumption | apply incl_refl].
  - split; [constructor | intros x []].
Qed.

(** X19: when the analysts on offer have distinct ids, the selection stays
    a duplicate-free list of ids on offer under every sequence of controls
    the component presents: checkboxes, chips, select all, clear, and the
    three presets. *)
Theorem selection_stays_a_set_of_offered_analysts analysts actions :
  forall selectedAnalysts,
  NoDup (map id analysts) ->
  NoDup selectedAnalysts -> incl selectedAnalysts (map id analysts) ->
  all_offered analysts selectedAnalysts actions ->
  NoDup (fold_left (perform analysts) actions selectedAnalysts)
  /\ incl (fold_left (perform analysts) actions selectedAnalysts)
          (map id analysts).
Proof.
  induction actions as [|a actions IH]; intros sel Ha Hn Hi Ho; cbn [fold_left].
  - auto.
  - destruct Ho as [Ho Hr].
    destruct (perform_invariant analysts sel a Ha Hn Hi Ho) as [Hn' Hi'].
    apply IH; assumption.
Qed.

(** X20: for a duplicate-free selection of analysts on offer, the length
    comparison behind the select-all button is exact: it reads [Deselect
    All] exactly when every analyst is selected; pressing it then clears
    the selection, and otherwise selects every analyst. *)
Theorem select_all_compares_lengths_exactly analysts selectedAnalysts :
  NoDup (map id analysts) ->
  NoDup selectedAnalysts -> incl selectedAnalysts (map id analysts) ->
  (allSelected analysts selectedAnalysts = true
   <-> incl (map id analysts) selectedAnalysts)
  /\ handleSelectAll analysts selectedAnalysts
     = if allSelected analysts selectedAnalysts then [] else map id analysts.
Proof.
  intros Ha Hn Hi. split; [|reflexivity].
  unfold allSelected. rewrite Nat.eqb_eq. split.
  - intros E. apply NoDup_length_incl; [assumption| |assumption].
    rewrite length_map. lia.
  - intros H.
    pose proof (NoDup_incl_length Ha H) as H1.
    pose proof (NoDup_incl_length Hn Hi) as H2.
    rewrite length_map in *. lia.
Qed.

End AnalystSelection.

Section AnalystSelectionExamples.

Import AnalystSelector.

(** Three analysts on offer; a preset, a checkbox, a chip, and select all. *)
Lemma selection_stays_a_set_of_offered_analysts_witness :
  NoDup
    (fold_left
       (perform
          [{| id := lit "warren_buffett"; displayName := lit "Warren Buffett";
              description := None |};
           {| id := lit "cathie_wood"; displayName := lit "Cathie Wood";
              description := None |};
           {| id := lit "technicals_analyst"; displayName := lit "Technicals";
              description := None |}])
       [ValueInvestors; Toggle (lit "cathie_wood");
        Toggle (lit "warren_buffett"); SelectAll]
       [])
  /\ incl
       (fold_left
          (perform
             [{| id := lit "warren_buffett"; displayName := lit "Warren Buffett";
                 description := None |};
              {| id := lit "cathie_wood"; displayName := lit "Cathie Wood";
                 description := None |};
              {| id := lit "technicals_analyst"; displayName := lit "Technicals";
                 description := None |}])
          [ValueInvestors; Toggle (lit "cathie_wood");
           Toggle (lit "warren_buffett"); SelectAll]
          [])
       (map id
          [{| id := lit "warren_buffett"; displayName := lit "Warren Buffett";
              description := None |};
           {| id := lit "cathie_wood"; displayName := lit "Cathie Wood";
              description := None |};
           {| id := lit "technicals_analyst"; displayName := lit "Technicals";
              description := None |}]).
Proof.
  apply selection_stays_a_set_of_offered_analysts.
  - vm_compute. repeat constructor; cbn [In]; intuition discriminate.
  - constructor.
  - intros x [].
  - vm_compute. intuition.
Defined.

Lemma select_all_compares_lengths_exactly_witness :
  (allSelected
     [{| id := lit "warren_buffett"; displayName := lit "Warren Buffett";
         description := None |};
      {| id := lit "cathie_wood"; displayName := lit "Cathie Wood";
         description := None |}]
     [lit "cathie_wood"] = true
   <-> incl
         (map id
            [{| id := lit "warren_buffett"; displayName := lit "Warren Buffett";
                description := None |};
             {| id := lit "cathie_wood"; displayName := lit "Cathie Wood";
                description := None |}])
         [lit "cathie_wood"])
  /\ handleSelectAll
       [{| id := lit "warren_buffett"; displayName := lit "Warren Buffett";
           description := None |};
        {| id := lit "cathie_wood"; displayName := lit "Cathie Wood";
           description := None |}]
       [lit "cathie_wood"]
     = if allSelected
            [{| id := lit "warren_buffett"; displayName := lit "Warren Buffett";
                description := None |};
             {| id := lit "cathie_wood"; displayName := lit "Cathie Wood";
                description := None |}]
            [lit "cathie_wood"]
       then []
       else map id
              [{| id := lit "warren_buffett"; displayName := lit "Warren Buffett";
                  description := None |};
               {| id := lit "cathie_wood"; displayName := lit "Cathie Wood";
                  description := None |}].
Proof.
  apply select_all_compares_lengths_exactly.
  - vm_compute. repeat constructor; cbn [In]; intuition discriminate.
  - repeat constructor. intros [].
  - vm_compute. intros x [<-|[]]. right. left. reflexivity.
Defined.

(** The length comparison alone is not enough: with a selected id that is
    not on offer, the button clears the selection although no analyst on
    offer is selected. *)
Example select_all_with_a_stale_id :
  handleSelectAll
    [{| id := lit "warren_buffett"; displayName := lit "Warren Buffett";
        description := None |}]
    [lit "retired_analyst"] = [].
Proof. reflexivity. Qed.

End AnalystSelectionExamples.

(** ** The model selector *)

Section Trimming.

Lemma trim_start_spec s :
  exists spaces,
    s = spaces ++ trim_start s
    /\ forallb is_js_space spaces = true
    /\ match trim_start s with
       | [] => True
       | c :: _ => is_js_space c = false
       end.
Proof.
  induction s as [|c r IH]; cbn [trim_start].
  - exists []. auto.
  - destruct (is_js_space c) eqn:E.
    + destruct IH as [sp [H1 [H2 H3]]]. exists (c :: sp).
      cbn [app forallb]. rewrite E, H2. split; [f_equal; assumption | auto].
    + exists []. cbn [app forallb]. auto.
Qed.

Lemma trim_start_fixed c r :
  is_js_space c = false -> trim_start (c :: r) = c :: r.
Proof. intros E. cbn [trim_start]. rewrite E. reflexivity. Qed.

Lemma trim_start_spaces s :
  forallb is_js_space s = true -> trim_start s = [].
Proof.
  induction s as [|c r IH]; cbn [forallb trim_start]; [reflexivity|].
  intros H. apply andb_true_iff in H. destruct H as [-> H]. auto.
Qed.

Lemma forallb_rev {A} (p : A -> bool) l :
  forallb p (rev l) = forallb p l.
Proof.
  induction l as [|a l IH]; cbn [rev forallb]; [reflexivity|].
  rewrite forallb_app, IH. cbn [forallb]. rewrite andb_true_r. apply andb_comm.
Qed.

(** What [trim] leaves: nothing when the string is all white space, and
    otherwise a string that starts and ends with a character that is no
    white space. *)
Lemma trim_spec s :
  match trim s with
  | [] => forallb is_js_space s = true
  | c :: r =>
      forallb is_js_space s = false
      /\ is_js_space c = false
      /\ is_js_space (last (c :: r) 0) = false
      /\ trim (c :: r) = c :: r
  end.
Proof.
  unfold trim.
  destruct (trim_start_spec s) as [sp [Hs [Hsp Hh]]].
  destruct (trim_start_spec (rev (trim_start s))) as [sp' [Hs' [Hsp' Hh']]].
  destruct (trim_start (rev (trim_start s))) as [|d u] eqn:Eu.
  - cbn [rev]. rewrite app_nil_r in Hs'.
    assert (Ht : forallb is_js_space (trim_start s) = true).
    { rewrite <- forallb_rev, Hs'. assumption. }
    rewrite Hs, forallb_app, Hsp, Ht. reflexivity.
  - assert (Et : trim_start s = rev u ++ d :: rev sp').
    { rewrite <- (rev_involutive (trim_start s)), Hs', rev_app_distr.
      cbn [rev]. rewrite <- app_assoc. reflexivity. }
    cbn [rev].
    assert (Hm : exists c r, rev u ++ [d] = c :: r /\ is_js_space c = false).
    { rewrite Et in Hh. destruct (rev u) as [|c r]; cbn [app] in *.
      - exists d, []. auto.
      - exists c, (r ++ [d]). auto. }
    destruct Hm as [c [r [Em Hc]]]. rewrite Em.
    split; [|split; [assumption|split]].
    + rewrite Hs, forallb_app, Et, forallb_app. cbn [forallb].
      rewrite Hh'. cbn [andb]. rewrite andb_false_r. apply andb_false_r.
    + rewrite <- Em. rewrite last_last. assumption.
    + rewrite (trim_start_fixed c r Hc). rewrite <- Em.
      rewrite rev_app_distr, rev_involutive. cbn [rev app].
      rewrite (trim_start_fixed d u Hh'). reflexivity.
Qed.

End Trimming.

Section ModelSelection.

Import App ModelSelector.

(** X21: the custom-model dialog hands over a name exactly when the text
    is not all white space; the name it hands over is not empty, starts
    and ends with a character that is no white space, is left alone by a
    second trim, and passes the model check of [validateForm]. *)
Theorem custom_model_name_is_trimmed_and_accepted customModelName f :
  match handleCustomModel customModelName with
  | None => forallb is_js_space customModelName = true
  | Some m =>
      forallb is_js_space customModelName = false
      /\ m <> []
      /\ is_js_space (hd 0 m) = false
      /\ is_js_space (last m 0) = false
      /\ trim m = m
      /\ model (validateForm (with_model f m)) = None
  end.
Proof.
  unfold handleCustomModel.
  pose proof (trim_spec customModelName) as H.
  destruct (trim customModelName) as [|c r]; cbn [blank].
  - assumption.
  - destruct H as [H1 [H2 [H3 H4]]].
    split; [assumption|]. split; [discriminate|]. split; [assumption|].
    split; [assumption|]. split; [assumption|]. reflexivity.
Qed.

End ModelSelection.

(** ** Loading the models of a provider *)

Section ModelLoading.

Import Api App.

Variable srv : server.

Lemma find_id_found selectedModel ms :
  find_id selectedModel ms = Some true ->
  exists m, In m ms /\ get m (lit "id") = Some (Val (JStr selectedModel)).
Proof.
  induction ms as [|m rest IH]; cbn [find_id]; [discriminate|].
  destruct (get m (lit "id")) as [v|] eqn:E; [|discriminate].
  destruct (is_string v selectedModel) eqn:Ev.
  - intros _. exists m. split; [left; reflexivity|].
    destruct v as [|[]]; try discriminate Ev. cbn [is_string] in Ev.
    apply jsstring_eqb_eq in Ev. subst. assumption.
  - intros H. destruct (IH H) as [m' [Hin Hg]]. exists m'. split; [right|]; assumption.
Qed.

Lemma store_models_kept asked logged selectedModel data :
  selectedModel <> [] ->
  model_reset (store_models asked logged selectedModel data) = false ->
  (exists ms m,
      models (store_models asked logged selectedModel data) = Val (JArr ms)
      /\ In m ms /\ get m (lit "id") = Some (Val (JStr selectedModel)))
  \/ (models (store_models asked logged selectedModel data) = Val (JArr [])
      /\ In "Failed to load models:"%string
            (App.logged (store_models asked logged selectedModel data))).
Proof.
  intros Hs. unfold store_models.
  assert (F : forall a l,
             models (load_failed a l) = Val (JArr [])
             /\ In "Failed to load models:"%string (App.logged (load_failed a l))).
  { intros a l. split; [reflexivity|]. cbn [App.logged load_failed].
    apply in_or_app. right. left. reflexivity. }
  destruct data as [d|]; [|intros _; right; apply F].
  destruct selectedModel as [|c r]; [contradiction|]. cbn [blank].
  destruct d as [|[| | | |ms|]]; try (intros _; right; apply F).
  destruct (find_id (c :: r) ms) as [[|]|] eqn:E; cbn [model_reset models negb].
  - intros _. left. destruct (find_id_found _ _ E) as [m [H1 H2]].
    exists ms, m. auto.
  - discriminate.
  - intros _. right. apply F.
Qed.

(** X22: a selected model outlives [loadModels] only when the list just
    loaded has an entry with that id, or when the load failed, in which
    case the list is empty and the failure is logged. *)
Theorem selected_model_is_kept_only_if_listed selectedModel provider :
  selectedModel <> [] ->
  model_reset (loadModels srv selectedModel provider) = false ->
  (exists ms m,
      models (loadModels srv selectedModel provider) = Val (JArr ms)
      /\ In m ms /\ get m (lit "id") = Some (Val (JStr selectedModel)))
  \/ (models (loadModels srv selectedModel provider) = Val (JArr [])
      /\ In "Failed to load models:"%string
            (logged (loadModels srv selectedModel provider))).
Proof.
  intros Hs. unfold loadModels.
  destruct (JsString.eqb provider (lit "Ollama"));
    [|destruct (JsString.eqb provider (lit "LMStudio"))];
    apply store_models_kept; assumption.
Qed.

Lemma guarded_one_request r label dflt :
  requests (guarded srv r label dflt) = [r].
Proof.
  unfold guarded. destruct (srv r) as [|body]; [reflexivity|].
  destruct (data_of body); reflexivity.
Qed.

Lemma store_models_asked asked logged selectedModel data :
  App.asked (store_models asked logged selectedModel data) = asked.
Proof.
  unfold store_models, load_failed.
  destruct data as [d|]; [|reflexivity].
  destruct (blank selectedModel); [reflexivity|].
  destruct d as [|[| | | |ms|]]; try reflexivity.
  destruct (find_id selectedModel ms); reflexivity.
Qed.

Lemma store_models_empty asked logged selectedModel :
  models (store_models asked logged selectedModel (Some (Val (JArr []))))
  = Val (JArr [])
  /\ model_reset (store_models asked logged selectedModel (Some (Val (JArr []))))
     = negb (blank selectedModel).
Proof.
  unfold store_models. destruct (blank selectedModel); split; reflexivity.
Qed.

(** X23: [loadModels] issues exactly one request, whatever the server
    does: to the status endpoint of a local provider, or to the model list
    of any other. When the answer to that request is of no use (it is
    rejected, or the body carries no truthy data), the list of models
    becomes empty and a selected model is reset, whatever the provider. *)
Theorem loadModels_without_a_helpful_server selectedModel provider :
  let request :=
    Get (if JsString.eqb provider (lit "Ollama")
         then lit "/llm/ollama/status"
         else if JsString.eqb provider (lit "LMStudio")
              then lit "/llm/lmstudio/status"
              else lit "/llm/providers/" ++ provider ++ lit "/models") in
  asked (loadModels srv selectedModel provider) = [request]
  /\ (unhelpful (srv request) ->
      models (loadModels srv selectedModel provider) = Val (JArr [])
      /\ model_reset (loadModels srv selectedModel provider)
         = negb (blank selectedModel)).
Proof.
  cbv zeta. unfold loadModels.
  destruct (JsString.eqb provider (lit "Ollama"));
    [|destruct (JsString.eqb provider (lit "LMStudio"))];
    rewrite store_models_asked.
  - unfold checkOllamaStatus. rewrite guarded_one_request.
    split; [reflexivity|]. intros Hu.
    rewrite (guarded_unhelpful srv _ _ _ Hu). apply store_models_empty.
  - unfold checkLMStudioStatus. rewrite guarded_one_request.
    split; [reflexivity|]. intros Hu.
    rewrite (guarded_unhelpful srv _ _ _ Hu). apply store_models_empty.
  - unfold getAvailableModels. rewrite guarded_one_request.
    split; [reflexivity|]. intros Hu.
    rewrite (guarded_unhelpful srv _ _ _ Hu). apply store_models_empty.
Qed.

End ModelLoading.

Section ModelLoadingExamples.

Import Api App.

(** The provider lists the selected model: it stays selected. *)
Lemma selected_model_is_kept_only_if_listed_witness :
  (exists ms m,
      models (loadModels
                (fun _ =>
                   AxiosResolves
                     (Val (JObj [(lit "data",
                                  JArr [JObj [(lit "id", JStr (lit "gpt-4o"))]])])))
                (lit "gpt-4o") (lit "OpenAI")) = Val (JArr ms)
      /\ In m ms /\ get m (lit "id") = Some (Val (JStr (lit "gpt-4o"))))
  \/ (models (loadModels
                (fun _ =>
                   AxiosResolves
                     (Val (JObj [(lit "data",
                                  JArr [JObj [(lit "id", JStr (lit "gpt-4o"))]])])))
                (lit "gpt-4o") (lit "OpenAI")) = Val (JArr [])
      /\ In "Failed to load models:"%string
            (logged (loadModels
                       (fun _ =>
                          AxiosResolves
                            (Val (JObj [(lit "data",
                                         JArr [JObj [(lit "id", JStr (lit "gpt-4o"))]])])))
                       (lit "gpt-4o") (lit "OpenAI")))).
Proof.
  apply selected_model_is_kept_only_if_listed.
  - discriminate.
  - reflexivity.
Defined.

(** A list that is no array: the load fails after the list was stored, the
    list ends up empty, and the selected model stays. *)
Example loadModels_on_a_list_that_is_no_array :
  let r := loadModels
             (fun _ => AxiosResolves
                         (Val (JObj [(lit "data", JObj [(lit "models", JArr [])])])))
             (lit "gpt-4o") (lit "OpenAI") in
  models r = Val (JArr []) /\ model_reset r = false
  /\ logged r = ["Failed to load models:"%string].
Proof. repeat split. Qed.

(** Ollama is selected and nothing answers. *)
Lemma loadModels_without_a_helpful_server_witness :
  asked (loadModels no_server (lit "llama3") (lit "Ollama"))
  = [Get (lit "/llm/ollama/status")]
  /\ models (loadModels no_server (lit "llama3") (lit "Ollama")) = Val (JArr [])
  /\ model_reset (loadModels no_server (lit "llama3") (lit "Ollama")) = true.
Proof.
  split.
  - exact (proj1 (loadModels_without_a_helpful_server
                    no_server (lit "llama3") (lit "Ollama"))).
  - exact (proj2 (loadModels_without_a_helpful_server
                    no_server (lit "llama3") (lit "Ollama")) I).
Defined.

End ModelLoadingExamples.

(** ** The order of the keys of a parsed object *)

Section ParsedObjects.

(** Keys that are array indices come first, in ascending order; the others
    follow in the order of their first occurrence; a repeated key keeps its
    place and takes the last value. *)
Example parsed_keys_are_ordered_as_the_language_orders_them :
  JSON_parse (wire_text "{'b':1,'2':2,'1':3,'01':4,'b':5,'4294967295':6}")
  = Some (JObj [(lit "1", JNum (lit "3")); (lit "2", JNum (lit "2"));
                (lit "b", JNum (lit "5")); (lit "01", JNum (lit "4"));
                (lit "4294967295", JNum (lit "6"))]).
Proof. reflexivity. Qed.

End ParsedObjects.
